(** * armer: the ROSRobot motion core, embedded in Rocq

    A shallow embedding of [armer/robots/ROSRobot.py].  The object state of
    [ROSRobot] is a record threaded through every method; a method returns a
    [Run]: a normal return, a Python exception together with the state at the
    raise, or [Blocked] when a blocking loop has used up the scheduled
    activity of the other threads.

    Threads.  Requests run one at a time.  A blocking loop gives way at its
    [rospy.sleep] or [event.wait]; what the subscriber, the stop service and
    the control timer do meanwhile is a list of [Event]s, each handled by the
    method the source runs for it.  The clock only moves with an event.  A
    blocking request that is entered while a motion is running has to wait
    for the motion lock; it is followed up to that wait ([with_lock]).

    Numbers.  Python floats and numpy float64 entries are idealised as real
    numbers ([R]); comparisons are the exact ones.  Vectors and matrices are
    lists; shapes are assumed conformant (a numpy shape error is not
    modelled).  Attributes inherited from the robot model ([q], [qd]) are
    plain attributes.  A Python [ZeroDivisionError] is modelled where the
    source divides Python scalars. *)

From Stdlib Require Import Reals Lra ZArith.
From stdpp Require Import gmap strings list fin_maps.

Local Open Scope R_scope.

(** ** Exact comparisons on floats, as booleans *)

Definition Rgtb (x y : R) : bool := if Rgt_dec x y then true else false.
Definition Rltb (x y : R) : bool := if Rlt_dec x y then true else false.
Definition Rgeb (x y : R) : bool := if Rge_dec x y then true else false.
Definition Rneqb (x y : R) : bool := if Req_dec_T x y then false else true.

#[global] Instance R_eq_dec : EqDecision R := Req_dec_T.

(** ** Python sequences

    An attribute such as [j_v] holds either a numpy array or a plain Python
    list ([[0] * self.n]); the two differ under [*=] and [.tolist()]. *)

Inductive pyvec :=
  | NdArray (l : list R)
  | PyList (l : list R).

Definition as_list (v : pyvec) : list R :=
  match v with NdArray l => l | PyList l => l end.

(** [any(v)]: some entry is truthy, that is, nonzero. *)
Definition py_any (l : list R) : bool := existsb (fun x => Rneqb x 0) l.

(** [np.sum(np.absolute(v))] *)
Definition sum_abs (l : list R) : R := foldr (fun x acc => Rabs x + acc) 0 l.

Definition vscale (c : R) (l : list R) : list R := map (fun x => x * c) l.
Definition vsub (a b : list R) : list R := zip_with Rminus a b.
Definition vadd (a b : list R) : list R := zip_with Rplus a b.

(** [v *= 0] with the integer [0]: a numpy array is scaled in place, a Python
    list is repeated zero times and becomes empty. *)
Definition imul_zero (v : pyvec) : pyvec :=
  match v with
  | NdArray l => NdArray (vscale 0 l)
  | PyList _ => PyList []
  end.

Inductive exn :=
  | KeyError
  | AttributeError
  | TypeError
  | ValueError
  | ZeroDivisionError.

(** [v *= c] with a float [c]: defined on numpy arrays only. *)
Definition imul_float (c : R) (v : pyvec) : option pyvec :=
  match v with
  | NdArray l => Some (NdArray (vscale c l))
  | PyList _ => None
  end.

(** ** Messages *)

Record Vector3 := { x : R; y : R; z : R }.
Record Twist := { linear : Vector3; angular : Vector3 }.
Record Wrench := { force : Vector3; torque : Vector3 }.
Record TwistStamped := { frame_id : string; twist : Twist }.

Definition zero3 : Vector3 := {| x := 0; y := 0; z := 0 |}.
Definition zero_wrench : Wrench := {| force := zero3; torque := zero3 |}.

(** [armer_msgs/Guards]: the two class constants travel with the message. *)
Record Guards := {
  GUARD_DURATION : Z;
  GUARD_EFFORT : Z;
  enabled : Z;
  duration : R;
  effort : Wrench
}.

Record GuardedVelocityGoal := {
  gv_twist_stamped : TwistStamped;
  gv_guards : Guards
}.

Record MoveToNamedPoseGoal := { goal_pose_name : string; goal_speed : R }.

Record AddNamedPoseRequest := { add_pose_name : string; add_overwrite : bool }.
(** [remove_named_pose_cb] reads [req.pose_name] and [req.overwrite]. *)
Record RemoveNamedPoseRequest := { rm_pose_name : string; rm_overwrite : bool }.

Record JointState := {
  js_name : list string;
  js_position : list R;
  js_velocity : list R;
  js_effort : list R
}.

Definition matrix := list (list R).

Record ManipulatorState := {
  ee_pose : matrix;
  ee_velocity : Twist;
  ee_wrench : Wrench;
  joint_poses : list R;
  joint_velocities : list R;
  joint_torques : list R
}.

(** What the action servers and publishers were handed. *)
Inductive ActionServer :=
  | velocity_server
  | joint_pose_server
  | named_pose_server.

Inductive ActionResult :=
  | GuardedVelocityResult (triggered : bool)
  | MoveToNamedPoseResult (success : bool)
  | MoveToJointPoseResult (success : bool).

Inductive Sent :=
  | set_succeeded (srv : ActionServer) (res : ActionResult)
  | set_aborted (srv : ActionServer) (res : ActionResult) (text : string)
  | publish_state (st : ManipulatorState).

(** A YAML document: top-level category, then pose name, then the numbers. *)
Abbreviation poses := (gmap string (list R)).
Abbreviation yaml := (gmap string (gmap string (list R))).

(** ** The object state *)

Record ROSRobot := {
  (* fixed at construction *)
  n : nat;
  frequency : R;
  readonly : bool;
  config_path : string;
  base_link : string;
  joint_names : list string;
  (* kinematic state *)
  q : pyvec;
  qd : pyvec;
  joint_indexes : list nat;
  joint_states : option JointState;
  (* motion *)
  moving : bool;
  preempted : bool;
  state : ManipulatorState;
  e_v_frame : option string;
  e_v : list R;
  j_v : pyvec;
  e_p : matrix;
  last_update : R;
  last_tick : R;
  (* named poses *)
  named_poses : poses;
  custom_configs : list string;
  (* the world the object acts on *)
  clock : R;
  disk : gmap string yaml;
  sent : list Sent
}.

(** Attribute assignment [self.f = v], one setter per assigned attribute. *)

Definition set_q (v : pyvec) (s : ROSRobot) : ROSRobot :=
  {| n := n s; frequency := frequency s; readonly := readonly s;
     config_path := config_path s; base_link := base_link s;
     joint_names := joint_names s; q := v; qd := qd s;
     joint_indexes := joint_indexes s; joint_states := joint_states s;
     moving := moving s; preempted := preempted s; state := state s;
     e_v_frame := e_v_frame s; e_v := e_v s; j_v := j_v s; e_p := e_p s;
     last_update := last_update s; last_tick := last_tick s;
     named_poses := named_poses s; custom_configs := custom_configs s;
     clock := clock s; disk := disk s; sent := sent s |}.

Definition set_qd (v : pyvec) (s : ROSRobot) : ROSRobot :=
  {| n := n s; frequency := frequency s; readonly := readonly s;
     config_path := config_path s; base_link := base_link s;
     joint_names := joint_names s; q := q s; qd := v;
     joint_indexes := joint_indexes s; joint_states := joint_states s;
     moving := moving s; preempted := preempted s; state := state s;
     e_v_frame := e_v_frame s; e_v := e_v s; j_v := j_v s; e_p := e_p s;
     last_update := last_update s; last_tick := last_tick s;
     named_poses := named_poses s; custom_configs := custom_configs s;
     clock := clock s; disk := disk s; sent := sent s |}.

Definition set_joint_indexes (v : list nat) (s : ROSRobot) : ROSRobot :=
  {| n := n s; frequency := frequency s; readonly := readonly s;
     config_path := config_path s; base_link := base_link s;
     joint_names := joint_names s; q := q s; qd := qd s; joint_indexes := v;
     joint_states := joint_states s; moving := moving s;
     preempted := preempted s; state := state s; e_v_frame := e_v_frame s;
     e_v := e_v s; j_v := j_v s; e_p := e_p s; last_update := last_update s;
     last_tick := last_tick s; named_poses := named_poses s;
     custom_configs := custom_configs s; clock := clock s; disk := disk s;
     sent := sent s |}.

Definition set_joint_states (v : option JointState) (s : ROSRobot) : ROSRobot :=
  {| n := n s; frequency := frequency s; readonly := readonly s;
     config_path := config_path s; base_link := base_link s;
     joint_names := joint_names s; q := q s; qd := qd s;
     joint_indexes := joint_indexes s; joint_states := v; moving := moving s;
     preempted := preempted s; state := state s; e_v_frame := e_v_frame s;
     e_v := e_v s; j_v := j_v s; e_p := e_p s; last_update := last_update s;
     last_tick := last_tick s; named_poses := named_poses s;
     custom_configs := custom_configs s; clock := clock s; disk := disk s;
     sent := sent s |}.

Definition set_moving (v : bool) (s : ROSRobot) : ROSRobot :=
  {| n := n s; frequency := frequency s; readonly := readonly s;
     config_path := config_path s; base_link := base_link s;
     joint_names := joint_names s; q := q s; qd := qd s;
     joint_indexes := joint_indexes s; joint_states := joint_states s;
     moving := v; preempted := preempted s; state := state s;
     e_v_frame := e_v_frame s; e_v := e_v s; j_v := j_v s; e_p := e_p s;
     last_update := last_update s; last_tick := last_tick s;
     named_poses := named_poses s; custom_configs := custom_configs s;
     clock := clock s; disk := disk s; sent := sent s |}.

Definition set_preempted (v : bool) (s : ROSRobot) : ROSRobot :=
  {| n := n s; frequency := frequency s; readonly := readonly s;
     config_path := config_path s; base_link := base_link s;
     joint_names := joint_names s; q := q s; qd := qd s;
     joint_indexes := joint_indexes s; joint_states := joint_states s;
     moving := moving s; preempted := v; state := state s;
     e_v_frame := e_v_frame s; e_v := e_v s; j_v := j_v s; e_p := e_p s;
     last_update := last_update s; last_tick := last_tick s;
     named_poses := named_poses s; custom_configs := custom_configs s;
     clock := clock s; disk := disk s; sent := sent s |}.

Definition set_state (v : ManipulatorState) (s : ROSRobot) : ROSRobot :=
  {| n := n s; frequency := frequency s; readonly := readonly s;
     config_path := config_path s; base_link := base_link s;
     joint_names := joint_names s; q := q s; qd := qd s;
     joint_indexes := joint_indexes s; joint_states := joint_states s;
     moving := moving s; preempted := preempted s; state := v;
     e_v_frame := e_v_frame s; e_v := e_v s; j_v := j_v s; e_p := e_p s;
     last_update := last_update s; last_tick := last_tick s;
     named_poses := named_poses s; custom_configs := custom_configs s;
     clock := clock s; disk := disk s; sent := sent s |}.

Definition set_e_v_frame (v : option string) (s : ROSRobot) : ROSRobot :=
  {| n := n s; frequency := frequency s; readonly := readonly s;
     config_path := config_path s; base_link := base_link s;
     joint_names := joint_names s; q := q s; qd := qd s;
     joint_indexes := joint_indexes s; joint_states := joint_states s;
     moving := moving s; preempted := preempted s; state := state s;
     e_v_frame := v; e_v := e_v s; j_v := j_v s; e_p := e_p s;
     last_update := last_update s; last_tick := last_tick s;
     named_poses := named_poses s; custom_configs := custom_configs s;
     clock := clock s; disk := disk s; sent := sent s |}.

Definition set_e_v (v : list R) (s : ROSRobot) : ROSRobot :=
  {| n := n s; frequency := frequency s; readonly := readonly s;
     config_path := config_path s; base_link := base_link s;
     joint_names := joint_names s; q := q s; qd := qd s;
     joint_indexes := joint_indexes s; joint_states := joint_states s;
     moving := moving s; preempted := preempted s; state := state s;
     e_v_frame := e_v_frame s; e_v := v; j_v := j_v s; e_p := e_p s;
     last_update := last_update s; last_tick := last_tick s;
     named_poses := named_poses s; custom_configs := custom_configs s;
     clock := clock s; disk := disk s; sent := sent s |}.

Definition set_j_v (v : pyvec) (s : ROSRobot) : ROSRobot :=
  {| n := n s; frequency := frequency s; readonly := readonly s;
     config_path := config_path s; base_link := base_link s;
     joint_names := joint_names s; q := q s; qd := qd s;
     joint_indexes := joint_indexes s; joint_states := joint_states s;
     moving := moving s; preempted := preempted s; state := state s;
     e_v_frame := e_v_frame s; e_v := e_v s; j_v := v; e_p := e_p s;
     last_update := last_update s; last_tick := last_tick s;
     named_poses := named_poses s; custom_configs := custom_configs s;
     clock := clock s; disk := disk s; sent := sent s |}.

Definition set_e_p (v : matrix) (s : ROSRobot) : ROSRobot :=
  {| n := n s; frequency := frequency s; readonly := readonly s;
     config_path := config_path s; base_link := base_link s;
     joint_names := joint_names s; q := q s; qd := qd s;
     joint_indexes := joint_indexes s; joint_states := joint_states s;
     moving := moving s; preempted := preempted s; state := state s;
     e_v_frame := e_v_frame s; e_v := e_v s; j_v := j_v s; e_p := v;
     last_update := last_update s; last_tick := last_tick s;
     named_poses := named_poses s; custom_configs := custom_configs s;
     clock := clock s; disk := disk s; sent := sent s |}.

Definition set_last_update (v : R) (s : ROSRobot) : ROSRobot :=
  {| n := n s; frequency := frequency s; readonly := readonly s;
     config_path := config_path s; base_link := base_link s;
     joint_names := joint_names s; q := q s; qd := qd s;
     joint_indexes := joint_indexes s; joint_states := joint_states s;
     moving := moving s; preempted := preempted s; state := state s;
     e_v_frame := e_v_frame s; e_v := e_v s; j_v := j_v s; e_p := e_p s;
     last_update := v; last_tick := last_tick s;
     named_poses := named_poses s; custom_configs := custom_configs s;
     clock := clock s; disk := disk s; sent := sent s |}.

Definition set_last_tick (v : R) (s : ROSRobot) : ROSRobot :=
  {| n := n s; frequency := frequency s; readonly := readonly s;
     config_path := config_path s; base_link := base_link s;
     joint_names := joint_names s; q := q s; qd := qd s;
     joint_indexes := joint_indexes s; joint_states := joint_states s;
     moving := moving s; preempted := preempted s; state := state s;
     e_v_frame := e_v_frame s; e_v := e_v s; j_v := j_v s; e_p := e_p s;
     last_update := last_update s; last_tick := v;
     named_poses := named_poses s; custom_configs := custom_configs s;
     clock := clock s; disk := disk s; sent := sent s |}.

Definition set_named_poses (v : poses) (s : ROSRobot) : ROSRobot :=
  {| n := n s; frequency := frequency s; readonly := readonly s;
     config_path := config_path s; base_link := base_link s;
     joint_names := joint_names s; q := q s; qd := qd s;
     joint_indexes := joint_indexes s; joint_states := joint_states s;
     moving := moving s; preempted := preempted s; state := state s;
     e_v_frame := e_v_frame s; e_v := e_v s; j_v := j_v s; e_p := e_p s;
     last_update := last_update s; last_tick := last_tick s;
     named_poses := v; custom_configs := custom_configs s; clock := clock s;
     disk := disk s; sent := sent s |}.

Definition set_custom_configs (v : list string) (s : ROSRobot) : ROSRobot :=
  {| n := n s; frequency := frequency s; readonly := readonly s;
     config_path := config_path s; base_link := base_link s;
     joint_names := joint_names s; q := q s; qd := qd s;
     joint_indexes := joint_indexes s; joint_states := joint_states s;
     moving := moving s; preempted := preempted s; state := state s;
     e_v_frame := e_v_frame s; e_v := e_v s; j_v := j_v s; e_p := e_p s;
     last_update := last_update s; last_tick := last_tick s;
     named_poses := named_poses s; custom_configs := v; clock := clock s;
     disk := disk s; sent := sent s |}.

Definition set_clock (v : R) (s : ROSRobot) : ROSRobot :=
  {| n := n s; frequency := frequency s; readonly := readonly s;
     config_path := config_path s; base_link := base_link s;
     joint_names := joint_names s; q := q s; qd := qd s;
     joint_indexes := joint_indexes s; joint_states := joint_states s;
     moving := moving s; preempted := preempted s; state := state s;
     e_v_frame := e_v_frame s; e_v := e_v s; j_v := j_v s; e_p := e_p s;
     last_update := last_update s; last_tick := last_tick s;
     named_poses := named_poses s; custom_configs := custom_configs s;
     clock := v; disk := disk s; sent := sent s |}.

Definition set_disk (v : gmap string yaml) (s : ROSRobot) : ROSRobot :=
  {| n := n s; frequency := frequency s; readonly := readonly s;
     config_path := config_path s; base_link := base_link s;
     joint_names := joint_names s; q := q s; qd := qd s;
     joint_indexes := joint_indexes s; joint_states := joint_states s;
     moving := moving s; preempted := preempted s; state := state s;
     e_v_frame := e_v_frame s; e_v := e_v s; j_v := j_v s; e_p := e_p s;
     last_update := last_update s; last_tick := last_tick s;
     named_poses := named_poses s; custom_configs := custom_configs s;
     clock := clock s; disk := v; sent := sent s |}.

(** An action server or publisher call appends to the log of sent messages. *)

Definition send (v : Sent) (s : ROSRobot) : ROSRobot :=
  {| n := n s; frequency := frequency s; readonly := readonly s;
     config_path := config_path s; base_link := base_link s;
     joint_names := joint_names s; q := q s; qd := qd s;
     joint_indexes := joint_indexes s; joint_states := joint_states s;
     moving := moving s; preempted := preempted s; state := state s;
     e_v_frame := e_v_frame s; e_v := e_v s; j_v := j_v s; e_p := e_p s;
     last_update := last_update s; last_tick := last_tick s;
     named_poses := named_poses s; custom_configs := custom_configs s;
     clock := clock s; disk := disk s; sent := sent s ++ [v] |}.

(** ** Outcomes of a method call *)

Inductive Run (A : Type) :=
  | Ret (a : A)
  | Raise (e : exn) (s : ROSRobot)
  | Blocked.
Arguments Ret {A} a.
Arguments Raise {A} e s.
Arguments Blocked {A}.

#[global] Instance run_ret : MRet Run := fun A a => Ret a.
#[global] Instance run_bind : MBind Run := fun A B k m =>
  match m with
  | Ret a => k a
  | Raise e s => Raise e s
  | Blocked => Blocked
  end.

(** State after a call made by another thread, whatever its outcome. *)
Definition after (r : Run ROSRobot) (s : ROSRobot) : ROSRobot :=
  match r with
  | Ret s' => s'
  | Raise _ s' => s'
  | Blocked => s
  end.

(** ** Linear algebra on lists *)

Definition dot (a b : list R) : R := foldr Rplus 0 (zip_with Rmult a b).
Definition matvec (M : matrix) (v : list R) : list R := map (fun row => dot row v) M.
Definition column (j : nat) (M : matrix) : list R := map (fun row => nth j row 0) M.
Definition matmul (A B : matrix) : matrix :=
  map (fun row => map (fun j => dot row (column j B)) (seq 0 (length (hd [] B)))) A.

(** [np.linalg.norm(v)] *)
Definition sum_squares (v : list R) : R := foldr (fun x acc => x * x + acc) 0 v.
Definition norm (v : list R) : R := sqrt (sum_squares v).

(** [M[:3, 3]], [M[:3, :3]] and [SE3.Rt(R, t).A] on homogeneous transforms. *)
Definition trans_part (M : matrix) : list R := column 3 (take 3 M).
Definition rot_part (M : matrix) : matrix := map (take 3) (take 3 M).
Definition SE3_Rt (Rm : matrix) (t : list R) : matrix :=
  zip_with (fun row ti => row ++ [ti]) Rm t ++ [[0; 0; 0; 1]].

(** [np.array(l)[idx]] *)
Definition np_index (l : list R) (idx : list nat) : list R :=
  map (fun i => nth i l 0) idx.

(** [l.index(x)] *)
Fixpoint py_index (x : string) (l : list string) : option nat :=
  match l with
  | [] => None
  | y :: l' => if bool_decide (y = x) then Some 0%nat else S <$> py_index x l'
  end.

(** [int(r)]: truncation toward zero. *)
Definition py_int (r : R) : Z :=
  if Rle_dec 0 r then Int_part r else (- Int_part (- r))%Z.

(** ** The kinematics provider

    The robot model ([rtb.ERobot]) and the numpy solvers are outside the
    repository: they are taken as an interface. *)

Class Kinematics := {
  fkine : list R -> matrix;
  jacob0 : list R -> matrix;
  pinv : matrix -> matrix;
  inv : matrix -> matrix;
  jtraj : list R -> list R -> R -> matrix
}.

Section Robot.
Context `{K : Kinematics}.

(** ** [preempt] *)

Definition preempt (s : ROSRobot) : ROSRobot :=
  let s := set_preempted true s in
  let s := set_e_v (vscale 0 (e_v s)) s in
  let s := set_j_v (imul_zero (j_v s)) s in
  set_qd (imul_zero (qd s)) s.

(** ** [_state_cb] *)

Fixpoint find_indexes (names : list string) (msg_names : list string)
    (s : ROSRobot) : Run ROSRobot :=
  match names with
  | [] => Ret s
  | joint_name :: rest =>
      match py_index joint_name msg_names with
      | None => Raise ValueError s
      | Some i => find_indexes rest msg_names
                    (set_joint_indexes (joint_indexes s ++ [i]) s)
      end
  end.

Definition _state_cb (msg : JointState) (s : ROSRobot) : Run ROSRobot :=
  s ← (if bool_decide (joint_indexes s = [])
       then find_indexes (joint_names s) (js_name msg) s
       else Ret s);
  let s := set_q (if bool_decide (length (js_position msg) = n s)
                  then NdArray (np_index (js_position msg) (joint_indexes s))
                  else PyList (repeat 0 (n s))) s in
  Ret (set_joint_states (Some msg) s).

(** ** [__vel_move] *)

Definition vel_move (twist_stamped : TwistStamped) (s : ROSRobot) : ROSRobot :=
  let target := twist twist_stamped in
  let s :=
    if bool_decide (frame_id twist_stamped ≠ EmptyString)
       && bool_decide (frame_id twist_stamped ≠ base_link s)
    then set_e_v_frame (Some (frame_id twist_stamped)) s
    else set_e_v_frame None s in
  let e_v' := [x (linear target); y (linear target); z (linear target);
               x (angular target); y (angular target); z (angular target)] in
  let s := if py_any (vsub e_v' (e_v s))
           then set_e_p (fkine (as_list (q s))) s else s in
  let s := set_e_v e_v' s in
  set_last_update (clock s) s.

(** ** [get_state]

    The pose is kept as the transform returned by [fkine] (the source splits
    it into position and quaternion); the three assignments to
    [twist.angular.x] are as written, the last one stays. *)

Definition get_state (s : ROSRobot) : ManipulatorState :=
  let J := jacob0 (as_list (q s)) in
  let ee := fkine (as_list (q s)) in
  let T := matvec J (as_list (qd s)) in
  {| ee_pose := ee;
     ee_velocity :=
       {| linear := {| x := nth 0 T 0; y := nth 1 T 0; z := nth 2 T 0 |};
          angular := {| x := nth 5 T 0; y := 0; z := 0 |} |};
     ee_wrench := zero_wrench;
     joint_poses :=
       match joint_states s with
       | Some js => np_index (js_position js) (joint_indexes s)
       | None => as_list (q s)
       end;
     joint_velocities :=
       match joint_states s with
       | Some js => np_index (js_velocity js) (joint_indexes s)
       | None => as_list (qd s)
       end;
     joint_torques :=
       match joint_states s with
       | Some js => np_index (js_effort js) (joint_indexes s)
       | None => repeat 0 (n s)
       end |}.

(** ** [test_guards] *)

Definition wrench_list (w : Wrench) : list R :=
  [x (force w); y (force w); z (force w);
   x (torque w); y (torque w); z (torque w)].

Definition test_guards (guards : Guards) (start_time : R) (s : ROSRobot) : Z :=
  let triggered := 0%Z in
  let triggered :=
    if (Z.land (enabled guards) (GUARD_DURATION guards) =? GUARD_DURATION guards)%Z
    then Z.lor triggered
           (if Rgtb (clock s - start_time) (duration guards)
            then GUARD_DURATION guards else 0%Z)
    else triggered in
  let triggered :=
    if (Z.land (enabled guards) (GUARD_EFFORT guards) =? GUARD_EFFORT guards)%Z
    then
      let eActual := map Rabs (wrench_list (ee_wrench (state s))) in
      let eThreshold := wrench_list (effort guards) in
      Z.lor triggered
        (if existsb (fun '(a, t) => Rgtb a t) (zip eActual eThreshold)
         then GUARD_EFFORT guards else 0%Z)
    else triggered in
  triggered.

(** ** [step]: one control tick *)

Definition stale (current_time : R) (s : ROSRobot) : bool :=
  Rgtb (current_time - last_update s) 0.1.

(** The block under [if any(self.e_v)]: decay of a stale cartesian target,
    integration of the expected pose, and the joint velocity that tracks it. *)
Definition track_cartesian (dt current_time : R) (s : ROSRobot) : ROSRobot :=
  let s :=
    if stale current_time s
    then set_e_v (vscale (if Rgeb (sum_abs (e_v s)) 0.0001 then 0.9 else 0)
                    (e_v s)) s
    else s in
  let Kp := 1 in
  let wTe := fkine (as_list (q s)) in
  let error := matmul (e_p s) (inv wTe) in
  let trans := vadd (trans_part (e_p s)) (vscale dt (take 3 (e_v s))) in
  let rotation := rot_part (e_p s) in
  let s := set_e_p (SE3_Rt rotation trans) s in
  let v_t := vadd (take 3 (e_v s)) (vscale Kp (trans_part error)) in
  let v_r := drop 3 (e_v s) in
  set_j_v (NdArray (matvec (pinv (jacob0 (as_list (q s)))) (v_t ++ v_r))) s.

(** The block under [if any(self.j_v)]: decay of a stale joint target. *)
Definition decay_joint (current_time : R) (s : ROSRobot) : Run ROSRobot :=
  if py_any (as_list (j_v s)) then
    if stale current_time s then
      if Rgeb (sum_abs (as_list (j_v s))) 0.0001 then
        match imul_float 0.9 (j_v s) with
        | Some v => Ret (set_j_v v s)
        | None => Raise TypeError s
        end
      else Ret (set_j_v (imul_zero (j_v s)) s)
    else Ret s
  else Ret s.

Definition step (dt : R) (s : ROSRobot) : Run ROSRobot :=
  if readonly s then Ret s else
  let current_time := clock s in
  let s := set_state (get_state s) s in
  let s := if py_any (e_v s) then track_cartesian dt current_time s else s in
  s ← decay_joint current_time s;
  let s := set_qd (j_v s) s in
  let s := set_last_tick current_time s in
  Ret (send (publish_state (state s)) s).

(** ** The other threads

    While a blocking request sleeps or waits for the tick, the subscriber,
    the stop service and the control timer run their own methods. *)

Inductive Event :=
  | EvClock (now : R)
  | EvStateCb (msg : JointState)
  | EvPreempt
  | EvStep (dt : R).

Definition handle (s : ROSRobot) (ev : Event) : ROSRobot :=
  match ev with
  | EvClock now => set_clock now s
  | EvStateCb msg => after (_state_cb msg s) s
  | EvPreempt => preempt s
  | EvStep dt => after (step dt s) s
  end.

Definition resume (evs : list Event) (s : ROSRobot) : ROSRobot :=
  foldl handle s evs.

(** ** The named pose store *)

(** [d.update(e)]: the entries of [e] win. *)
Definition py_update (d e : poses) : poses := e ∪ d.

(** The body shared by both [try] blocks of [__load_config]: a file that
    cannot be opened ([IOError]) leaves the map as it is. *)
Definition load_file (file : option yaml) (named : poses) : poses :=
  match file with
  | Some config =>
      match config !! "named_poses"%string with
      | Some entries => py_update named entries
      | None => named
      end
  | None => named
  end.

Definition load_config (s : ROSRobot) : ROSRobot :=
  let s := set_named_poses ∅ s in
  let s :=
    foldl (fun s config_name =>
             set_named_poses (load_file (disk s !! config_name) (named_poses s)) s)
          s (custom_configs s) in
  if bool_decide (is_Some (disk s !! config_path s))
  then set_named_poses (load_file (disk s !! config_path s) (named_poses s)) s
  else s.

Definition write_config (key : string) (value : poses) (s : ROSRobot) : ROSRobot :=
  let config : yaml :=
    match disk s !! config_path s with
    | Some current => current
    | None => ∅
    end in
  let config := <[key := value]> config in
  set_disk (<[config_path s := config]> (disk s)) s.

Record AddNamedPoseResponse := { success : bool }.

Definition add_named_pose_cb (req : AddNamedPoseRequest) (s : ROSRobot)
    : Run (AddNamedPoseResponse * ROSRobot) :=
  if bool_decide (is_Some (named_poses s !! add_pose_name req))
     && negb (add_overwrite req)
  then Ret ({| success := false |}, s)
  else
    match q s with
    | PyList _ => Raise AttributeError s
    | NdArray l =>
        let s := set_named_poses (<[add_pose_name req := l]> (named_poses s)) s in
        let s := write_config "named_poses" (named_poses s) s in
        Ret ({| success := true |}, s)
    end.

Definition remove_named_pose_cb (req : RemoveNamedPoseRequest) (s : ROSRobot)
    : Run (AddNamedPoseResponse * ROSRobot) :=
  if negb (bool_decide (is_Some (named_poses s !! rm_pose_name req)))
     && negb (rm_overwrite req)
  then Ret ({| success := false |}, s)
  else
    match named_poses s !! rm_pose_name req with
    | None => Raise KeyError s
    | Some _ =>
        let s := set_named_poses (delete (rm_pose_name req) (named_poses s)) s in
        let s := write_config "named_poses" (named_poses s) s in
        Ret ({| success := true |}, s)
    end.

Definition add_named_pose_config_cb (path : string) (s : ROSRobot)
    : bool * ROSRobot :=
  let s := set_custom_configs (custom_configs s ++ [path]) s in
  (true, load_config s).

(** [l.remove(x)]: the first occurrence goes. *)
Fixpoint py_remove (x : string) (l : list string) : list string :=
  match l with
  | [] => []
  | y :: l' => if bool_decide (y = x) then l' else y :: py_remove x l'
  end.

Definition remove_named_pose_config_cb (path : string) (s : ROSRobot)
    : bool * ROSRobot :=
  if bool_decide (path ∈ custom_configs s)
  then (true, load_config (set_custom_configs (py_remove path (custom_configs s)) s))
  else (true, s).

(** [get(name)]: the lookup every reader of the store performs. *)
Definition get (name : string) (s : ROSRobot) : option (list R) :=
  named_poses s !! name.

(** ** [__traj_move] *)

Definition av_vel : R := 0.025.
Definition kP : R := 1500.

(** [qfunc(1)]: the interpolant at the end of the unit interval is the last
    row of the trajectory. *)
Definition qfunc1 (traj : matrix) : list R := default [] (last traj).

(** The part of the loop body that shapes one command: the minimum-jerk
    joint velocity at step [time], and the factor the speed cap applies to it
    and to the time increment. *)
Definition jerk_velocity (freq : R) (time_freq time : Z) (end_point q : list R)
    : list R :=
  let u := IZR time / IZR time_freq in
  let jV := map (fun d => freq * (1 / IZR time_freq) * d
                          * (30 * u ^ 2 - 60 * u ^ 3 + 30 * u ^ 4))
                (vsub end_point q) in
  vscale kP jV.

Definition time_scaling_of (twist : list R) (max_speed : R) : R :=
  let linear_vel := norm (take 3 twist) in
  if Rgtb linear_vel max_speed then
    let normalised_vel := vscale max_speed (map (fun c => c / linear_vel) twist) in
    norm normalised_vel / linear_vel
  else 1.

(** [np.all(np.fabs(qfunc(1) - self.q) < 0.02)] *)
Definition close_to_goal (end_point : list R) (s : ROSRobot) : bool :=
  forallb (fun d => Rltb (Rabs d) 0.02) (vsub end_point (as_list (q s))).

(** One pass through the loop body, from the velocity computation to the
    assignments before [self.event.wait()]: the advanced profile time and the
    state carrying the command.  (The expected position [pos] and the list
    [twist_speed_vect] only feed the debugging prints.) *)
Definition traj_body (end_point : list R) (delta : R) (time_freq : Z)
    (max_speed : R) (t : R) (time : Z) (s : ROSRobot) : R * ROSRobot :=
  let jV := jerk_velocity (frequency s) time_freq time end_point
              (as_list (q s)) in
  let jacob := jacob0 (as_list (q s)) in
  let twist := matvec jacob jV in
  let time_scaling := time_scaling_of twist max_speed in
  let t := t + delta * time_scaling in
  let s := set_j_v (NdArray (vscale time_scaling jV)) s in
  let s := set_last_update (clock s) s in
  (t, s).

(** The [while] loop.  Each iteration ends in [self.event.wait()]: the head of
    [ws] is what the other threads do before the loop resumes. *)
Fixpoint traj_loop (end_point : list R) (total_time_cal delta : R)
    (time_freq : Z) (max_speed : R)
    (ws : list (list Event)) (t : R) (time : Z) (s : ROSRobot)
    : Run (R * ROSRobot) :=
  if negb (Rltb (t + delta) total_time_cal && negb (preempted s))
  then Ret (t, s)
  else if close_to_goal end_point s then Ret (t, s)
  else if (time_freq =? 0)%Z then Raise ZeroDivisionError s
  else
    let '(t, s) := traj_body end_point delta time_freq max_speed t time s in
    match ws with
    | [] => Blocked
    | w :: ws' =>
        traj_loop end_point total_time_cal delta time_freq max_speed
          ws' t (time + 1)%Z (resume w s)
    end.

(** [np.max(np.fabs((end_point - beg_point) / av_vel))] *)
Definition total_time (end_point beg_point : list R) : R :=
  foldr Rmax 0 (map (fun d => Rabs (d / av_vel)) (vsub end_point beg_point)).

Definition traj_move (traj : matrix) (max_speed : R)
    (ws : list (list Event)) (s : ROSRobot) : Run (bool * ROSRobot) :=
  let s := set_moving true s in
  if bool_decide (frequency s = 0) then Raise ZeroDivisionError s else
  let delta := 1 / frequency s in
  let end_point := qfunc1 traj in
  let beg_point := as_list (q s) in
  let total_time_cal := total_time end_point beg_point in
  let time_freq := py_int (total_time_cal * frequency s) in
  '(_, s) ← traj_loop end_point total_time_cal delta time_freq max_speed
              ws 0 1%Z s;
  let s := set_j_v (PyList (repeat 0 (n s))) s in
  let s := set_moving false s in
  let result := negb (preempted s) in
  let s := set_preempted false s in
  Ret (result, s).

(** ** [named_pose_cb] *)

(** ** The motion lock

    [with self.lock:] in a blocking request.  [moving] is set and cleared
    under the lock, so a request that finds it set has found a motion
    running: it has called [preempt] and now waits until the running request
    has left its loop, cleared both flags and released the lock.  Requests
    are followed one at a time; there is no second request here to end the
    wait, and the request is [Blocked].  (The flag also stays set when a
    motion was left by an exception; a request entered in that state is not
    followed either.) *)
Definition with_lock {A : Type} (s : ROSRobot) (body : Run A) : Run A :=
  if moving s then Blocked else body.

Definition named_pose_cb (ws : list (list Event)) (goal : MoveToNamedPoseGoal)
    (s : ROSRobot) : Run ROSRobot :=
  let s := if moving s then preempt s else s in
  with_lock s (
  let s :=
    if negb (bool_decide (is_Some (named_poses s !! goal_pose_name goal)))
    then send (set_aborted named_pose_server (MoveToNamedPoseResult false)
                 "Unknown named pose") s
    else s in
  match named_poses s !! goal_pose_name goal with
  | None => Raise KeyError s
  | Some pose =>
      let traj := jtraj (as_list (q s)) pose (frequency s) in
      '(ok, s) ← traj_move traj
                   (if Rneqb (goal_speed goal) 0 then goal_speed goal else 0.2)
                   ws s;
      if ok : bool
      then Ret (send (set_succeeded named_pose_server
                        (MoveToNamedPoseResult true)) s)
      else Ret (send (set_aborted named_pose_server
                        (MoveToNamedPoseResult false) "") s)
  end).

(** ** [guarded_velocity_cb] *)

(** The [while] loop.  Each iteration ends in [rospy.sleep(0.01)]. *)
Fixpoint guarded_loop (msg : GuardedVelocityGoal) (start_time : R)
    (ws : list (list Event)) (triggered : Z) (s : ROSRobot)
    : Run (Z * ROSRobot) :=
  if preempted s then Ret (triggered, s)
  else
    let triggered := test_guards (gv_guards msg) start_time s in
    if negb (triggered =? 0)%Z then Ret (triggered, s)
    else
      let s := vel_move (gv_twist_stamped msg) s in
      match ws with
      | [] => Blocked
      | w :: ws' => guarded_loop msg start_time ws' triggered (resume w s)
      end.

Definition guarded_velocity_cb (ws : list (list Event))
    (msg : GuardedVelocityGoal) (s : ROSRobot) : Run ROSRobot :=
  let s := if moving s then preempt s else s in
  with_lock s (
  let start_time := clock s in
  let triggered := 0%Z in
  '(triggered, s) ← guarded_loop msg start_time ws triggered s;
  Ret (send (set_succeeded velocity_server (GuardedVelocityResult true)) s)).

(** ** [velocity_cb], [joint_velocity_cb]

    The two commands only store a target and the time under the lock. *)

Record JointVelocity := { jv_joints : list R }.

Definition velocity_cb (msg : TwistStamped) (s : ROSRobot) : ROSRobot :=
  let s := if moving s then preempt s else s in
  vel_move msg s.

Definition joint_velocity_cb (msg : JointVelocity) (s : ROSRobot) : ROSRobot :=
  let s := if moving s then preempt s else s in
  let s := set_j_v (NdArray (jv_joints msg)) s in
  set_last_update (clock s) s.

(** ** [joint_pose_cb]

    The two results go to the servers the source names: success to
    [named_pose_server], failure to [joint_pose_server]. *)

Record MoveToJointPoseGoal := { jp_joints : list R; jp_speed : R }.

Definition joint_pose_cb (ws : list (list Event)) (goal : MoveToJointPoseGoal)
    (s : ROSRobot) : Run ROSRobot :=
  let s := if moving s then preempt s else s in
  with_lock s (
  let traj := jtraj (as_list (q s)) (jp_joints goal) (frequency s) in
  '(ok, s) ← traj_move traj
               (if Rneqb (jp_speed goal) 0 then jp_speed goal else 0.2)
               ws s;
  if ok : bool
  then Ret (send (set_succeeded named_pose_server
                    (MoveToJointPoseResult true)) s)
  else Ret (send (set_aborted joint_pose_server
                    (MoveToJointPoseResult false) "") s)).

(** ** [get_named_pose_configs_cb] *)

Definition get_named_pose_configs_cb (s : ROSRobot) : list string :=
  custom_configs s.

End Robot.

(** * Vocabulary of the statements *)

(** Some component of the wrench in the last state snapshot exceeds, in
    absolute value, the threshold configured for the same axis: one of the
    three forces or of the three torques. *)
Definition effort_exceeded (g : Guards) (s : ROSRobot) : Prop :=
  let actual := ee_wrench (state s) in
  let limit := effort g in
  Rabs (x (force actual)) > x (force limit)
  \/ Rabs (y (force actual)) > y (force limit)
  \/ Rabs (z (force actual)) > z (force limit)
  \/ Rabs (x (torque actual)) > x (torque limit)
  \/ Rabs (y (torque actual)) > y (torque limit)
  \/ Rabs (z (torque actual)) > z (torque limit).

(** The sum of the componentwise absolute values of a target. *)
Definition magnitude (v : list R) : R := foldr Rplus 0 (map Rabs v).

(** The staleness rule in the words of the specification, for a target [v]
    whose last external update lies [elapsed] seconds back: after more than
    100 ms the target is multiplied by 0.9 while its magnitude is at least
    1e-4 and is set to zero below; within 100 ms it is kept. *)
Definition decay_rule (elapsed : R) (v : list R) : list R :=
  if Rgt_dec elapsed 0.1
  then if Rge_dec (magnitude v) 0.0001
       then map (fun c => 0.9 * c) v
       else map (fun _ => 0) v
  else v.

(** The same choice as the tick makes it, on its own staleness test. *)
Definition staleness_decay (is_stale : bool) (v : list R) : list R :=
  if is_stale
  then if Rgeb (sum_abs v) 0.0001 then vscale 0.9 v else map (fun _ => 0) v
  else v.

(** What [v *= 0] leaves of a vector: the zero vector of the same length
    when it is a numpy array, the empty list when it is a plain list. *)
Definition zeroed_in_place (v : pyvec) : pyvec :=
  match v with
  | NdArray l => NdArray (repeat 0 (length l))
  | PyList _ => PyList []
  end.

(** The joint target can be scaled by a float: it is a numpy array, or a
    plain list of zeros (which [any] skips). *)
Definition scalable (v : pyvec) : Prop :=
  match v with
  | NdArray _ => True
  | PyList l => py_any l = false
  end.

(** The [named_poses] entries a file contributes; none when the file is
    missing or has no such category. *)
Definition entries_of (file : option yaml) : poses := load_file file ∅.

(** Laying one source over what was found so far: its entry wins. *)
Definition overlay (name : string) (found : option (list R)) (layer : poses)
    : option (list R) :=
  match layer !! name with
  | Some v => Some v
  | None => found
  end.

(** What the primary file holds under [named_poses]. *)
Definition persisted (s : ROSRobot) : poses :=
  default ∅ (disk s !! config_path s ≫= (fun doc => doc !! "named_poses"%string)).

(** The abort [named_pose_cb] sends for a name it does not know. *)
Definition unknown_named_pose : Sent :=
  set_aborted named_pose_server (MoveToNamedPoseResult false)
    "Unknown named pose".

(** The test at the head of an iteration as the loop makes it, on the
    duration handed to it. *)
Definition traj_exit (end_point : list R) (total_time_cal delta t : R)
    (s : ROSRobot) : Prop :=
  close_to_goal end_point s = true
  \/ total_time_cal <= t + delta
  \/ preempted s = true.

(** Arrival in the words of the specification: every joint is within 0.02
    of the goal. *)
Definition arrived (goal position : list R) : Prop :=
  forall (j : nat) (g p : R),
    goal !! j = Some g -> position !! j = Some p -> Rabs (g - p) < 0.02.

(** [T] is the estimated duration of the specification: the largest
    [|goal_j - start_j| / 0.025] over the joints, and zero when there is no
    joint. *)
Definition estimated_duration (goal start : list R) (T : R) : Prop :=
  (forall (j : nat) (g p : R),
      goal !! j = Some g -> start !! j = Some p -> Rabs (g - p) / 0.025 <= T)
  /\ (T = 0
      \/ exists (j : nat) (g p : R),
           goal !! j = Some g /\ start !! j = Some p
           /\ T = Rabs (g - p) / 0.025).

(** The three ends of a trajectory run in the words of the specification,
    for a run from [start] towards [goal] that has reached the profile time
    [t] in state [s]: the arm has arrived, the next period [delta] would not
    stay below the estimated duration, or a stop has been requested. *)
Definition run_over (goal start : list R) (delta t : R) (s : ROSRobot) : Prop :=
  arrived goal (as_list (q s))
  \/ (exists T : R, estimated_duration goal start T /\ T <= t + delta)
  \/ preempted s = true.

(** ** Tactics *)

(** Read attributes through the assignments made before. *)
Ltac attrs :=
  cbn [n frequency readonly config_path base_link joint_names q qd
       joint_indexes joint_states moving preempted state e_v_frame e_v j_v
       e_p last_update last_tick named_poses custom_configs clock disk sent
       set_q set_qd set_joint_indexes set_joint_states set_moving
       set_preempted set_state set_e_v_frame set_e_v set_j_v set_e_p
       set_last_update set_last_tick set_named_poses set_custom_configs
       set_clock set_disk send] in *.

(** Linear arithmetic over absolute values of explicit numbers. *)
Ltac abs_lra := unfold Rabs in *; repeat destruct (Rcase_abs _); lra.

(** Equality of two explicit vectors, entry by entry. *)
Ltac vec_eq := repeat (apply (f_equal2 cons); [lra|]); reflexivity.

(** ** Scenarios used by the concrete checks *)

Definition zeros6 : list R := [0; 0; 0; 0; 0; 0].

Definition identity4 : matrix :=
  [[1; 0; 0; 0]; [0; 1; 0; 0]; [0; 0; 1; 0]; [0; 0; 0; 1]].

(** A stand-in arm: the end-effector never leaves the origin, joint space and
    twist space coincide. *)
Definition toy_arm : Kinematics :=
  {| fkine := fun _ => identity4;
     jacob0 := fun _ => [[1; 0; 0; 0; 0; 0]; [0; 1; 0; 0; 0; 0];
                         [0; 0; 1; 0; 0; 0]; [0; 0; 0; 1; 0; 0];
                         [0; 0; 0; 0; 1; 0]; [0; 0; 0; 0; 0; 1]];
     pinv := fun M => M;
     inv := fun M => M;
     jtraj := fun q0 q1 _ => [q0; q1] |}.

Definition blank_state : ManipulatorState :=
  {| ee_pose := identity4;
     ee_velocity := {| linear := zero3; angular := zero3 |};
     ee_wrench := zero_wrench;
     joint_poses := zeros6; joint_velocities := zeros6;
     joint_torques := zeros6 |}.

(** A six-joint arm at rest, just constructed, with nothing on disk. *)
Definition idle_robot : ROSRobot :=
  {| n := 6; frequency := 500; readonly := false;
     config_path := "armer.yaml"; base_link := "base_link";
     joint_names := [];
     q := NdArray zeros6; qd := NdArray zeros6;
     joint_indexes := []; joint_states := None;
     moving := false; preempted := false; state := blank_state;
     e_v_frame := None; e_v := zeros6; j_v := NdArray zeros6;
     e_p := identity4; last_update := 0; last_tick := 0;
     named_poses := ∅; custom_configs := [];
     clock := 0; disk := ∅; sent := [] |}.

(** Both guards enabled: one second of motion, five units of effort on
    every axis. *)
Definition both_guards : Guards :=
  {| GUARD_DURATION := 1; GUARD_EFFORT := 2; enabled := 3; duration := 1;
     effort := {| force := {| x := 5; y := 5; z := 5 |};
                  torque := {| x := 5; y := 5; z := 5 |} |} |}.

(** Two seconds on the clock and a snapshot with a wrench: six units of
    force against the x axis, which is over the threshold of five, and four
    units of torque about z, which is under it. *)
Definition pressed_robot : ROSRobot :=
  set_clock 2
    (set_state
       {| ee_pose := identity4;
          ee_velocity := {| linear := zero3; angular := zero3 |};
          ee_wrench := {| force := {| x := -6; y := 0; z := 0 |};
                          torque := {| x := 0; y := 0; z := -4 |} |};
          joint_poses := zeros6; joint_velocities := zeros6;
          joint_torques := zeros6 |} idle_robot).

(** The same with every component within its threshold. *)
Definition braced_robot : ROSRobot :=
  set_clock 2
    (set_state
       {| ee_pose := identity4;
          ee_velocity := {| linear := zero3; angular := zero3 |};
          ee_wrench := {| force := {| x := -5; y := 0; z := 0 |};
                          torque := {| x := 0; y := 0; z := -4 |} |};
          joint_poses := zeros6; joint_velocities := zeros6;
          joint_torques := zeros6 |} idle_robot).

(** A cartesian target of one unit along x, last refreshed a second ago. *)
Definition stale_cartesian_robot : ROSRobot :=
  set_clock 1 (set_e_v [1; 0; 0; 0; 0; 0] idle_robot).

(** Joint targets without a cartesian one, on the second joint: one last
    refreshed a second ago, one as old whose magnitude is below 1e-4, and
    one refreshed 50 ms ago. *)
Definition coasting_robot : ROSRobot :=
  set_clock 1 (set_j_v (NdArray [0; -0.1; 0; 0; 0; 0]) idle_robot).

Definition fading_robot : ROSRobot :=
  set_clock 1 (set_j_v (NdArray [0; -0.00005; 0; 0; 0; 0]) idle_robot).

Definition fresh_robot : ROSRobot :=
  set_clock 0.05 (set_j_v (NdArray [0; -0.1; 0; 0; 0; 0]) idle_robot).


(** The scenario of the specification: the primary file holds [home] at the
    origin, an auxiliary file holds [home] with the last joint at one. *)
Definition home_aux : list R := [0; 0; 0; 0; 0; 1].

Definition primary_file : yaml :=
  {[ "named_poses"%string := {[ "home"%string := zeros6 ]} ]}.

Definition aux_file : yaml :=
  {[ "named_poses"%string := {[ "home"%string := home_aux ]} ]}.

(** The driver as constructed over these files: the auxiliary list is empty
    and [__load_config] has run once. *)
Definition store_robot : ROSRobot :=
  load_config
    (set_disk (<["aux.yaml"%string := aux_file]>
                 (<["armer.yaml"%string := primary_file]> ∅)) idle_robot).

(** Requests used below. *)
Definition add_ready : AddNamedPoseRequest :=
  {| add_pose_name := "ready"; add_overwrite := false |}.

Definition remove_ghost : RemoveNamedPoseRequest :=
  {| rm_pose_name := "ghost"; rm_overwrite := true |}.

Definition go_nowhere : MoveToNamedPoseGoal :=
  {| goal_pose_name := "nowhere"; goal_speed := 0 |}.

(** A guarded velocity goal with no guard enabled and a zero twist. *)
Definition unguarded_goal : GuardedVelocityGoal :=
  {| gv_twist_stamped :=
       {| frame_id := ""; twist := {| linear := zero3; angular := zero3 |} |};
     gv_guards :=
       {| GUARD_DURATION := 1; GUARD_EFFORT := 2; enabled := 0; duration := 0;
          effort := zero_wrench |} |}.

(** A single joint that carries the end-effector along x and turns it about
    x: one unit of joint velocity gives three units of linear and four of
    angular velocity. *)
Definition screw_axis : Kinematics :=
  {| fkine := fun _ => identity4;
     jacob0 := fun _ => [[3]; [0]; [0]; [4]; [0]; [0]];
     pinv := fun M => M;
     inv := fun M => M;
     jtraj := fun q0 q1 _ => [q0; q1] |}.

(** The same arm seen with one joint, at the origin. *)
Definition one_joint_robot : ROSRobot :=
  set_q (NdArray [0]) idle_robot.

(** An arm whose joints only turn the end-effector: the linear rows of the
    Jacobian are zero, so no joint velocity reaches a positive speed cap. *)
Definition wrist_arm : Kinematics :=
  {| fkine := fun _ => identity4;
     jacob0 := fun _ => [[0; 0; 0; 0; 0; 0]; [0; 0; 0; 0; 0; 0];
                         [0; 0; 0; 0; 0; 0]; [0; 0; 0; 1; 0; 0];
                         [0; 0; 0; 0; 1; 0]; [0; 0; 0; 0; 0; 1]];
     pinv := fun M => M;
     inv := fun M => M;
     jtraj := fun q0 q1 _ => [q0; q1] |}.

(** The six-joint arm at rest with a control frequency of 2 Hz, and a goal
    that has the last joint 0.025 away: an estimated duration of one second,
    two periods. *)
Definition slow_robot : ROSRobot :=
  {| n := 6; frequency := 2; readonly := false;
     config_path := "armer.yaml"; base_link := "base_link";
     joint_names := [];
     q := NdArray zeros6; qd := NdArray zeros6;
     joint_indexes := []; joint_states := None;
     moving := false; preempted := false; state := blank_state;
     e_v_frame := None; e_v := zeros6; j_v := NdArray zeros6;
     e_p := identity4; last_update := 0; last_tick := 0;
     named_poses := ∅; custom_configs := [];
     clock := 0; disk := ∅; sent := [] |}.

Definition nudge : list R := [0; 0; 0; 0; 0; 0.025].

(** ** Vocabulary and scenarios of the further properties *)

(** What the auxiliary sources give together, overlaid in list order. *)
Definition aux_layers (s : ROSRobot) : poses :=
  foldl (fun acc c => load_file (disk s !! c) acc) ∅ (custom_configs s).

(** The files of the scenario, before the driver has read them. *)
Definition files_robot : ROSRobot :=
  set_disk (<["aux.yaml"%string := aux_file]>
              (<["armer.yaml"%string := primary_file]> ∅)) idle_robot.

(** The scenario once the auxiliary source has been added. *)
Definition layered_robot : ROSRobot :=
  snd (add_named_pose_config_cb "aux.yaml" store_robot).

(** Requests of the further properties. *)
Definition add_ready_over : AddNamedPoseRequest :=
  {| add_pose_name := "ready"; add_overwrite := true |}.

Definition remove_home : RemoveNamedPoseRequest :=
  {| rm_pose_name := "home"; rm_overwrite := false |}.

Definition remove_ready : RemoveNamedPoseRequest :=
  {| rm_pose_name := "ready"; rm_overwrite := false |}.

(** The six components of a twist, linear first, as [__vel_move] lists them. *)
Definition twist_list (t : Twist) : list R :=
  [x (linear t); y (linear t); z (linear t);
   x (angular t); y (angular t); z (angular t)].

(** A joint velocity command in the example's spirit, and a twist along x. *)
Definition creep : JointVelocity :=
  {| jv_joints := [0; -0.1; 0; 0; 0; 0] |}.

Definition push_x : TwistStamped :=
  {| frame_id := "";
     twist := {| linear := {| x := 1; y := 0; z := 0 |}; angular := zero3 |} |}.

Definition halt : JointVelocity := {| jv_joints := zeros6 |}.

(** A joint state message that names the joints in another order than the
    robot does, and a robot that has not seen a message yet. *)
Definition swapped_state : JointState :=
  {| js_name := ["elbow"; "shoulder"]%string;
     js_position := [2; 1];
     js_velocity := [0; 0];
     js_effort := [0; 0] |}.

Definition two_joint_robot : ROSRobot :=
  {| n := 2; frequency := 500; readonly := false;
     config_path := "armer.yaml"; base_link := "base_link";
     joint_names := ["shoulder"; "elbow"]%string;
     q := NdArray [0; 0]; qd := NdArray [0; 0];
     joint_indexes := []; joint_states := None;
     moving := false; preempted := false; state := blank_state;
     e_v_frame := None; e_v := zeros6; j_v := NdArray [0; 0];
     e_p := identity4; last_update := 0; last_tick := 0;
     named_poses := ∅; custom_configs := [];
     clock := 0; disk := ∅; sent := [] |}.

(** A message that lacks the second joint. *)
Definition partial_state : JointState :=
  {| js_name := ["shoulder"]%string;
     js_position := [1];
     js_velocity := [0];
     js_effort := [0] |}.

(** A robot on which the stop service has been called while idle, holding
    the pose [home]. *)
Definition stopped_robot : ROSRobot :=
  set_preempted true
    (set_named_poses (<["home"%string := zeros6]> ∅) idle_robot).

Definition go_home : MoveToNamedPoseGoal :=
  {| goal_pose_name := "home"; goal_speed := 0 |}.

Definition stay_put : MoveToJointPoseGoal :=
  {| jp_joints := zeros6; jp_speed := 0 |}.

(** The end-effector twist of one trajectory step before the speed cap, and
    the twist of the joint target a state holds.  As in [__traj_move], the
    Jacobian is the one at the current configuration. *)
Definition profile_twist `{K : Kinematics} (end_point : list R)
    (time_freq time : Z) (s : ROSRobot) : list R :=
  matvec (jacob0 (as_list (q s)))
    (jerk_velocity (frequency s) time_freq time end_point (as_list (q s))).

Definition commanded_twist `{K : Kinematics} (s : ROSRobot) : list R :=
  matvec (jacob0 (as_list (q s))) (as_list (j_v s)).

(** * Properties *)

(** ** Reflection of the comparisons *)

Lemma Rgtb_true (a b : R) : Rgtb a b = true <-> a > b.
Proof. unfold Rgtb. destruct (Rgt_dec a b); split; intros; try done. Qed.

Lemma Rltb_true (a b : R) : Rltb a b = true <-> a < b.
Proof. unfold Rltb. destruct (Rlt_dec a b); split; intros; try done. Qed.

Lemma Rltb_false (a b : R) : Rltb a b = false <-> b <= a.
Proof.
  unfold Rltb. destruct (Rlt_dec a b); split; intros; try done; lra.
Qed.

Lemma Rgeb_true (a b : R) : Rgeb a b = true <-> a >= b.
Proof. unfold Rgeb. destruct (Rge_dec a b); split; intros; try done. Qed.

Lemma Rneqb_false (a b : R) : Rneqb a b = false <-> a = b.
Proof. unfold Rneqb. destruct (Req_dec_T a b); split; intros; try done. Qed.

(** ** Equality of object states, attribute by attribute *)

Lemma ROSRobot_eq (s1 s2 : ROSRobot) :
  n s1 = n s2 -> frequency s1 = frequency s2 -> readonly s1 = readonly s2 ->
  config_path s1 = config_path s2 -> base_link s1 = base_link s2 ->
  joint_names s1 = joint_names s2 -> q s1 = q s2 -> qd s1 = qd s2 ->
  joint_indexes s1 = joint_indexes s2 -> joint_states s1 = joint_states s2 ->
  moving s1 = moving s2 -> preempted s1 = preempted s2 -> state s1 = state s2 ->
  e_v_frame s1 = e_v_frame s2 -> e_v s1 = e_v s2 -> j_v s1 = j_v s2 ->
  e_p s1 = e_p s2 -> last_update s1 = last_update s2 ->
  last_tick s1 = last_tick s2 -> named_poses s1 = named_poses s2 ->
  custom_configs s1 = custom_configs s2 -> clock s1 = clock s2 ->
  disk s1 = disk s2 -> sent s1 = sent s2 -> s1 = s2.
Proof. destruct s1, s2; simpl; intros; subst; reflexivity. Qed.

(** ** [preempt] *)

Lemma vscale_zero_twice (l : list R) : vscale 0 (vscale 0 l) = vscale 0 l.
Proof.
  unfold vscale. rewrite map_map. apply map_ext. intros a. lra.
Qed.

Lemma imul_zero_twice (v : pyvec) : imul_zero (imul_zero v) = imul_zero v.
Proof. destruct v; simpl; [by rewrite vscale_zero_twice | done]. Qed.

Lemma vscale_zero_repeat (l : list R) : vscale 0 l = repeat 0 (length l).
Proof.
  induction l as [|a l IH]; [done|]. cbn [vscale map length repeat].
  f_equal; [lra | exact IH].
Qed.

Lemma imul_zero_zeroed (v : pyvec) : imul_zero v = zeroed_in_place v.
Proof. destruct v as [l|l]; simpl; [by rewrite vscale_zero_repeat | done]. Qed.

(** A numpy target keeps its length under [preempt]; a plain list target
    ([[0] * n], as a finished trajectory leaves it) comes out empty. *)
Lemma preempt_joint_target_shape (s : ROSRobot) :
  match j_v s with
  | NdArray l => j_v (preempt s) = NdArray (vscale 0 l)
  | PyList _ => j_v (preempt s) = PyList []
  end.
Proof. simpl. by destruct (j_v s). Qed.

(** C9, where the code departs from it.  [preempt] raises the flag and a
    second call changes nothing, but its three [*= 0] zero a vector only
    where it is a numpy array: the cartesian target, and a joint target or
    output held as an array, come out as zero vectors of the length they
    had, while the plain list that a finished trajectory leaves as joint
    target comes out empty.  After every trajectory that has returned, on an
    arm with at least one joint, [preempt] therefore leaves a joint target
    that is not a vector of [n] zeros but the empty list. *)
Theorem preempt_empties_list_target `{K : Kinematics} (s : ROSRobot) :
  preempted (preempt s) = true
  /\ e_v (preempt s) = repeat 0 (length (e_v s))
  /\ j_v (preempt s) = zeroed_in_place (j_v s)
  /\ qd (preempt s) = zeroed_in_place (qd s)
  /\ preempt (preempt s) = preempt s
  /\ forall (traj : matrix) (max_speed : R) (ws : list (list Event))
        (s0 : ROSRobot) (ok : bool),
        traj_move traj max_speed ws s0 = Ret (ok, s) ->
        j_v s = PyList (repeat 0 (n s))
        /\ j_v (preempt s) = PyList []
        /\ ((0 < n s)%nat -> as_list (j_v (preempt s)) <> repeat 0 (n s)).
Proof.
  split; [reflexivity|]. split; [apply vscale_zero_repeat|].
  split; [apply imul_zero_zeroed|]. split; [apply imul_zero_zeroed|].
  split.
  { apply ROSRobot_eq; simpl; try reflexivity;
      (apply vscale_zero_twice || apply imul_zero_twice). }
  intros traj max_speed ws s0 ok Hrun.
  assert (Hjv : j_v s = PyList (repeat 0 (n s))).
  { unfold traj_move in Hrun. cbv zeta in Hrun.
    destruct (bool_decide _) in Hrun; [done|].
    destruct (traj_loop _ _ _ _ _ _ _ _ _) as [[t1 s1]| |] in Hrun; [|done..].
    cbn in Hrun. injection Hrun as _ <-. by attrs. }
  split; [exact Hjv|].
  assert (He : j_v (preempt s) = PyList []).
  { pose proof (preempt_joint_target_shape s) as Hs. by rewrite Hjv in Hs. }
  split; [exact He|].
  intros Hn. rewrite He. cbn [as_list]. destruct (n s); [lia | done].
Qed.

(** ** [test_guards] *)

Lemma existsb_abs_gt (l1 l2 : list R) :
  existsb (fun '(a, t) => Rgtb a t) (zip (map Rabs l1) l2) = true
  <-> exists (i : nat) (a t : R),
        l1 !! i = Some a /\ l2 !! i = Some t /\ Rabs a > t.
Proof.
  revert l2. induction l1 as [|a l1 IH]; intros l2.
  - simpl. split; [done | intros (i & a & t & H & _); by destruct i].
  - destruct l2 as [|t l2].
    + simpl. split; [done | intros (i & a' & t' & _ & H & _); by destruct i].
    + simpl. rewrite orb_true_iff, Rgtb_true, IH. split.
      * intros [H | (i & a' & t' & H1 & H2 & H3)].
        -- by exists 0%nat, a, t.
        -- by exists (S i), a', t'.
      * intros (i & a' & t' & H1 & H2 & H3). destruct i as [|i]; simpl in *.
        -- left. congruence.
        -- right. by exists i, a', t'.
Qed.

Lemma land_lor_self (a b : Z) : Z.land (Z.lor a b) a = a.
Proof.
  apply Z.bits_inj'. intros k _.
  rewrite Z.land_spec, Z.lor_spec. by destruct (Z.testbit a k), (Z.testbit b k).
Qed.

(** The comparison of the two six-entry arrays, axis by axis. *)
Lemma existsb_wrench_exceeded (g : Guards) (s : ROSRobot) :
  existsb (fun '(a, t) => Rgtb a t)
    (zip (map Rabs (wrench_list (ee_wrench (state s))))
       (wrench_list (effort g))) = true
  <-> effort_exceeded g s.
Proof.
  unfold effort_exceeded, wrench_list. cbv zeta.
  cbn [map zip zip_with existsb].
  rewrite !orb_true_iff, !Rgtb_true. intuition discriminate.
Qed.

(** The bitmask returned is the or of one optional flag per guard. *)
Lemma test_guards_flags (g : Guards) (start_time : R) (s : ROSRobot) :
  test_guards g start_time s =
  Z.lor
    (if (Z.land (enabled g) (GUARD_DURATION g) =? GUARD_DURATION g)%Z
        && Rgtb (clock s - start_time) (duration g)
     then GUARD_DURATION g else 0%Z)
    (if (Z.land (enabled g) (GUARD_EFFORT g) =? GUARD_EFFORT g)%Z
        && existsb (fun '(a, t) => Rgtb a t)
             (zip (map Rabs (wrench_list (ee_wrench (state s))))
                  (wrench_list (effort g)))
     then GUARD_EFFORT g else 0%Z).
Proof.
  unfold test_guards.
  destruct (Z.land (enabled g) (GUARD_DURATION g) =? GUARD_DURATION g)%Z,
    (Z.land (enabled g) (GUARD_EFFORT g) =? GUARD_EFFORT g)%Z; simpl; try done.
  all: try destruct (Rgtb _ _); simpl; try done.
  all: try destruct (existsb _ _); simpl; try done.
  all: try by rewrite Z.lor_0_r.
  all: by destruct (GUARD_DURATION g), (GUARD_EFFORT g).
Qed.

(** C8.  With the two guard flags distinct bits: the duration bit is in the
    result exactly when the duration guard is enabled and the elapsed time is
    greater than the threshold; the effort bit is in the result exactly when
    the effort guard is enabled and some wrench component exceeds its own
    threshold in absolute value; and the result is the bitwise or of the
    flags of the guards that tripped. *)
Theorem test_guards_trips (g : Guards) (start_time : R) (s : ROSRobot) :
  GUARD_DURATION g <> 0%Z ->
  GUARD_EFFORT g <> 0%Z ->
  Z.land (GUARD_DURATION g) (GUARD_EFFORT g) = 0%Z ->
  let tripped := test_guards g start_time s in
  let duration_trip :=
    Z.land (enabled g) (GUARD_DURATION g) = GUARD_DURATION g
    /\ clock s - start_time > duration g in
  let effort_trip :=
    Z.land (enabled g) (GUARD_EFFORT g) = GUARD_EFFORT g
    /\ effort_exceeded g s in
  (Z.land tripped (GUARD_DURATION g) = GUARD_DURATION g <-> duration_trip)
  /\ (Z.land tripped (GUARD_EFFORT g) = GUARD_EFFORT g <-> effort_trip)
  /\ exists d e : bool,
       (d = true <-> duration_trip) /\ (e = true <-> effort_trip)
       /\ tripped = Z.lor (if d then GUARD_DURATION g else 0%Z)
                          (if e then GUARD_EFFORT g else 0%Z).
Proof.
  intros Hd He Hde tripped duration_trip effort_trip.
  subst tripped. rewrite test_guards_flags.
  set (d := (Z.land (enabled g) (GUARD_DURATION g) =? GUARD_DURATION g)%Z
            && Rgtb (clock s - start_time) (duration g)).
  set (e := (Z.land (enabled g) (GUARD_EFFORT g) =? GUARD_EFFORT g)%Z
            && existsb _ _).
  assert (Hdt : d = true <-> duration_trip).
  { subst d duration_trip. by rewrite andb_true_iff, Z.eqb_eq, Rgtb_true. }
  assert (Het : e = true <-> effort_trip).
  { subst e effort_trip.
    by rewrite andb_true_iff, Z.eqb_eq, existsb_wrench_exceeded. }
  assert (Hed : Z.land (GUARD_EFFORT g) (GUARD_DURATION g) = 0%Z)
    by (by rewrite Z.land_comm).
  split; [|split].
  - rewrite <- Hdt. destruct d, e.
    + by rewrite land_lor_self.
    + by rewrite Z.lor_0_r, Z.land_diag.
    + rewrite Z.lor_0_l, Hed. split; [congruence | done].
    + rewrite Z.lor_0_l, Z.land_0_l. split; [congruence | done].
  - rewrite <- Het. destruct d, e.
    + by rewrite Z.lor_comm, land_lor_self.
    + rewrite Z.lor_0_r, Hde. split; [congruence | done].
    + by rewrite Z.lor_0_l, Z.land_diag.
    + rewrite Z.lor_0_l, Z.land_0_l. split; [congruence | done].
  - by exists d, e.
Qed.

Lemma test_guards_trips_witness :
  (GUARD_DURATION both_guards <> 0)%Z
  /\ (GUARD_EFFORT both_guards <> 0)%Z
  /\ Z.land (GUARD_DURATION both_guards) (GUARD_EFFORT both_guards) = 0%Z
  /\ effort_exceeded both_guards pressed_robot
  /\ ~ effort_exceeded both_guards braced_robot
  /\ test_guards both_guards 0 pressed_robot = 3%Z
  /\ test_guards both_guards 0 braced_robot = 1%Z
  /\ test_guards both_guards 1.5 pressed_robot = 2%Z.
Proof.
  assert (Hd : (GUARD_DURATION both_guards <> 0)%Z) by (simpl; lia).
  assert (He : (GUARD_EFFORT both_guards <> 0)%Z) by (simpl; lia).
  assert (Hde : Z.land (GUARD_DURATION both_guards) (GUARD_EFFORT both_guards)
                = 0%Z) by reflexivity.
  assert (Hover : effort_exceeded both_guards pressed_robot).
  { left. simpl. abs_lra. }
  assert (Hunder : ~ effort_exceeded both_guards braced_robot).
  { unfold effort_exceeded. simpl. abs_lra. }
  split; [exact Hd|]. split; [exact He|]. split; [exact Hde|].
  split; [exact Hover|]. split; [exact Hunder|].
  split; [|split].
  - destruct (test_guards_trips both_guards 0 pressed_robot Hd He Hde)
      as (_ & _ & d & e & Hdt & Het & ->).
    assert (d = true) as ->
      by (apply Hdt; split; [reflexivity | simpl; lra]).
    assert (e = true) as -> by (apply Het; split; [reflexivity | exact Hover]).
    reflexivity.
  - destruct (test_guards_trips both_guards 0 braced_robot Hd He Hde)
      as (_ & _ & d & e & Hdt & Het & ->).
    assert (d = true) as ->
      by (apply Hdt; split; [reflexivity | simpl; lra]).
    assert (e = false) as ->.
    { destruct e; [|done]. destruct Het as [Het _].
      destruct (Het eq_refl) as [_ Hex]. by destruct Hunder. }
    reflexivity.
  - destruct (test_guards_trips both_guards 1.5 pressed_robot Hd He Hde)
      as (_ & _ & d & e & Hdt & Het & ->).
    assert (d = false) as ->.
    { destruct d; [|done]. destruct Hdt as [Hdt _].
      destruct (Hdt eq_refl) as [_ Hgt]. simpl in Hgt. lra. }
    assert (e = true) as -> by (apply Het; split; [reflexivity | exact Hover]).
    reflexivity.
Defined.

(** ** [step]: the staleness decay *)

Lemma vscale_zero_map (l : list R) : vscale 0 l = map (fun _ => 0) l.
Proof. unfold vscale. apply map_ext. intros a. lra. Qed.

Lemma py_any_zeros (k : nat) : py_any (repeat 0 k) = false.
Proof.
  induction k as [|k IH]; simpl; [done|]. rewrite IH.
  unfold Rneqb. by destruct (Req_dec_T 0 0).
Qed.

Lemma py_any_false (l : list R) : py_any l = false -> Forall (fun a => a = 0) l.
Proof.
  induction l as [|a l IH]; simpl; [constructor|].
  rewrite orb_false_iff, Rneqb_false. intros [-> H]. constructor; auto.
Qed.

Lemma staleness_decay_zero (b : bool) (l : list R) :
  py_any l = false -> staleness_decay b l = l.
Proof.
  intros H%py_any_false. unfold staleness_decay.
  assert (E1 : vscale 0.9 l = l).
  { induction H as [|a l -> _ IH]; simpl; [done|]. rewrite IH. f_equal. lra. }
  assert (E2 : map (fun _ => 0) l = l).
  { clear E1. induction H as [|a l -> _ IH]; simpl; [done|]. by rewrite IH. }
  destruct b; [|done]. by destruct (Rgeb _ _).
Qed.

Lemma decay_joint_spec (t : R) (s : ROSRobot) :
  scalable (j_v s) ->
  exists v : pyvec,
    decay_joint t s = Ret (set_j_v v s)
    /\ as_list v = staleness_decay (stale t s) (as_list (j_v s)).
Proof.
  intros Hsc. unfold decay_joint.
  destruct (py_any (as_list (j_v s))) eqn:Hany.
  - destruct (j_v s) as [l|l] eqn:Hj; simpl in *; [|congruence].
    unfold staleness_decay. destruct (stale t s).
    + destruct (Rgeb (sum_abs l) 0.0001).
      * by exists (NdArray (vscale 0.9 l)).
      * exists (NdArray (vscale 0 l)). split; [done|]. apply vscale_zero_map.
    + exists (NdArray l). split; [|done]. f_equal.
      apply ROSRobot_eq; simpl; congruence.
  - exists (j_v s). split.
    + f_equal. apply ROSRobot_eq; reflexivity.
    + symmetry. by apply staleness_decay_zero.
Qed.

Lemma track_cartesian_e_v `{K : Kinematics} (dt t : R) (s : ROSRobot) :
  e_v (track_cartesian dt t s) = staleness_decay (stale t s) (e_v s).
Proof.
  unfold track_cartesian, staleness_decay. cbv zeta. simpl.
  destruct (stale t s); [|done]. simpl.
  destruct (Rgeb _ _); [done|]. apply vscale_zero_map.
Qed.

Lemma track_cartesian_last_update `{K : Kinematics} (dt t : R) (s : ROSRobot) :
  last_update (track_cartesian dt t s) = last_update s.
Proof.
  unfold track_cartesian. cbv zeta. simpl. by destruct (stale t s).
Qed.

Lemma track_cartesian_scalable `{K : Kinematics} (dt t : R) (s : ROSRobot) :
  scalable (j_v (track_cartesian dt t s)).
Proof. unfold track_cartesian. cbv zeta. simpl. done. Qed.

(** The tick's staleness test and its two factors are the rule of the
    specification. *)
Lemma sum_abs_magnitude (v : list R) : sum_abs v = magnitude v.
Proof.
  unfold sum_abs, magnitude. induction v as [|a v IH]; [done|].
  cbn [map foldr]. by rewrite IH.
Qed.

Lemma staleness_decay_rule (t : R) (s : ROSRobot) (v : list R) :
  staleness_decay (stale t s) v = decay_rule (t - last_update s) v.
Proof.
  unfold staleness_decay, decay_rule, stale, Rgtb, Rgeb.
  rewrite sum_abs_magnitude.
  destruct (Rgt_dec _ _); [|done].
  destruct (Rge_dec _ _); [|done].
  unfold vscale. apply map_ext. intros c. lra.
Qed.

Lemma decay_rule_stale (elapsed : R) (v : list R) :
  elapsed > 0.1 -> magnitude v >= 0.0001 ->
  decay_rule elapsed v = map (fun c => 0.9 * c) v.
Proof.
  intros H1 H2. unfold decay_rule.
  destruct (Rgt_dec _ _); [|done]. by destruct (Rge_dec _ _).
Qed.

Lemma decay_rule_faded (elapsed : R) (v : list R) :
  elapsed > 0.1 -> magnitude v < 0.0001 ->
  decay_rule elapsed v = map (fun _ => 0) v.
Proof.
  intros H1 H2. unfold decay_rule.
  destruct (Rgt_dec _ _); [|done]. destruct (Rge_dec _ _); [lra | done].
Qed.

Lemma decay_rule_fresh (elapsed : R) (v : list R) :
  elapsed <= 0.1 -> decay_rule elapsed v = v.
Proof.
  intros H1. unfold decay_rule. destruct (Rgt_dec _ _); [lra | done].
Qed.

(** C7.  A tick that runs (the driver is not read-only; the joint target is
    scalable) applies the staleness rule to the cartesian target and to the
    joint target, with the time elapsed between [last_update] and the tick:
    over 100 ms the target is multiplied by 0.9 when the sum of its absolute
    values is at least 1e-4 and set to zero below, and within 100 ms it is
    kept.  The joint target decayed is the one the tick holds at that point,
    the tracking velocity when a cartesian target is active and the stored
    joint target otherwise.  The result is also the commanded output. *)
Theorem step_applies_staleness_decay `{K : Kinematics} (dt : R) (s : ROSRobot) :
  readonly s = false ->
  (py_any (e_v s) = false -> scalable (j_v s)) ->
  let elapsed := clock s - last_update s in
  let joint_target :=
    if py_any (e_v s)
    then j_v (track_cartesian dt (clock s) (set_state (get_state s) s))
    else j_v s in
  exists s' : ROSRobot,
    step dt s = Ret s'
    /\ e_v s' = decay_rule elapsed (e_v s)
    /\ as_list (j_v s') = decay_rule elapsed (as_list joint_target)
    /\ qd s' = j_v s'.
Proof.
  intros Hro Hsc elapsed joint_target. subst joint_target elapsed.
  rewrite <- !staleness_decay_rule.
  unfold step. rewrite Hro. cbv zeta.
  change (e_v (set_state (get_state s) s)) with (e_v s).
  set (s0 := set_state (get_state s) s).
  destruct (py_any (e_v s)) eqn:Hev.
  - destruct (decay_joint_spec (clock s) (track_cartesian dt (clock s) s0))
      as (v & -> & Hv); [apply track_cartesian_scalable|].
    eexists. split; [reflexivity|].
    cbn [e_v j_v qd send set_last_tick set_qd set_j_v].
    rewrite track_cartesian_e_v. unfold stale in *.
    rewrite track_cartesian_last_update in Hv. done.
  - destruct (decay_joint_spec (clock s) s0) as (v & -> & Hv); [by apply Hsc|].
    eexists. split; [reflexivity|]. simpl.
    split; [|done]. symmetry. by apply staleness_decay_zero.
Qed.

Lemma step_applies_staleness_decay_witness :
  (exists s' : ROSRobot,
     @step toy_arm 0.01 stale_cartesian_robot = Ret s'
     /\ e_v s' = [0.9; 0; 0; 0; 0; 0] /\ qd s' = j_v s')
  /\ (exists s' : ROSRobot,
        @step toy_arm 0.01 coasting_robot = Ret s'
        /\ as_list (j_v s') = [0; -0.09; 0; 0; 0; 0] /\ qd s' = j_v s')
  /\ (exists s' : ROSRobot,
        @step toy_arm 0.01 fading_robot = Ret s'
        /\ as_list (j_v s') = [0; 0; 0; 0; 0; 0] /\ qd s' = j_v s')
  /\ (exists s' : ROSRobot,
        @step toy_arm 0.01 fresh_robot = Ret s'
        /\ as_list (j_v s') = [0; -0.1; 0; 0; 0; 0] /\ qd s' = j_v s').
Proof.
  split; [|split; [|split]].
  - destruct (@step_applies_staleness_decay toy_arm 0.01 stale_cartesian_robot)
      as (s' & H1 & H2 & _ & H4); [reflexivity | intros _; exact I |].
    exists s'. split; [exact H1|]. split; [|exact H4].
    rewrite H2.
    change (clock stale_cartesian_robot - last_update stale_cartesian_robot)
      with (1 - 0).
    change (e_v stale_cartesian_robot) with [1; 0; 0; 0; 0; 0].
    rewrite decay_rule_stale;
      [cbn [map]; vec_eq | lra | unfold magnitude; cbn [map foldr]; abs_lra].
  - destruct (@step_applies_staleness_decay toy_arm 0.01 coasting_robot)
      as (s' & H1 & _ & H3 & H4); [reflexivity | intros _; exact I |].
    exists s'. split; [exact H1|]. split; [|exact H4].
    rewrite H3.
    change (e_v coasting_robot) with (repeat 0 6). rewrite py_any_zeros.
    change (clock coasting_robot - last_update coasting_robot) with (1 - 0).
    change (as_list (j_v coasting_robot)) with [0; -0.1; 0; 0; 0; 0].
    rewrite decay_rule_stale;
      [cbn [map]; vec_eq | lra | unfold magnitude; cbn [map foldr]; abs_lra].
  - destruct (@step_applies_staleness_decay toy_arm 0.01 fading_robot)
      as (s' & H1 & _ & H3 & H4); [reflexivity | intros _; exact I |].
    exists s'. split; [exact H1|]. split; [|exact H4].
    rewrite H3.
    change (e_v fading_robot) with (repeat 0 6). rewrite py_any_zeros.
    change (clock fading_robot - last_update fading_robot) with (1 - 0).
    change (as_list (j_v fading_robot)) with [0; -0.00005; 0; 0; 0; 0].
    rewrite decay_rule_faded;
      [reflexivity | lra | unfold magnitude; cbn [map foldr]; abs_lra].
  - destruct (@step_applies_staleness_decay toy_arm 0.01 fresh_robot)
      as (s' & H1 & _ & H3 & H4); [reflexivity | intros _; exact I |].
    exists s'. split; [exact H1|]. split; [|exact H4].
    rewrite H3.
    change (e_v fresh_robot) with (repeat 0 6). rewrite py_any_zeros.
    change (clock fresh_robot - last_update fresh_robot) with (0.05 - 0).
    change (as_list (j_v fresh_robot)) with [0; -0.1; 0; 0; 0; 0].
    rewrite decay_rule_fresh; [reflexivity | lra].
Defined.

(** ** The named pose store: reload order *)

Lemma load_file_lookup (file : option yaml) (named : poses) (name : string) :
  load_file file named !! name = overlay name (named !! name) (entries_of file).
Proof.
  unfold overlay, entries_of, load_file, py_update.
  destruct file as [config|]; [|by rewrite lookup_empty].
  destruct (config !! "named_poses"%string) as [entries|];
    [|by rewrite lookup_empty].
  rewrite (right_id_L ∅ (∪)), lookup_union.
  by destruct (entries !! name), (named !! name).
Qed.

Lemma overlay_missing (name : string) (found : option (list R)) :
  overlay name found (entries_of None) = found.
Proof. unfold overlay, entries_of, load_file. by rewrite lookup_empty. Qed.

Lemma load_aux_fold (cfgs : list string) (s : ROSRobot) :
  let s' := foldl (fun s config_name =>
                     set_named_poses
                       (load_file (disk s !! config_name) (named_poses s)) s)
                  s cfgs in
  disk s' = disk s /\ config_path s' = config_path s
  /\ forall name,
       named_poses s' !! name
       = foldl (overlay name) (named_poses s !! name)
           (map (fun c => entries_of (disk s !! c)) cfgs).
Proof.
  revert s. induction cfgs as [|c cfgs IH]; intros s; simpl; [done|].
  destruct (IH (set_named_poses (load_file (disk s !! c) (named_poses s)) s))
    as (Hd & Hc & Hn).
  attrs. split; [done|]. split; [done|].
  intros name. by rewrite Hn, load_file_lookup.
Qed.

(** A reload assigns [named_poses] and nothing else. *)
Lemma load_config_frame (s : ROSRobot) :
  load_config s = set_named_poses (named_poses (load_config s)) s.
Proof.
  assert (Hfold : forall cfgs s0,
            let s' := foldl (fun s config_name =>
                         set_named_poses
                           (load_file (disk s !! config_name) (named_poses s)) s)
                        s0 cfgs in
            s' = set_named_poses (named_poses s') s0).
  { induction cfgs as [|c cfgs IH]; intros s0; simpl.
    - apply ROSRobot_eq; reflexivity.
    - rewrite IH at 1. apply ROSRobot_eq; reflexivity. }
  unfold load_config. cbv zeta.
  set (s1 := foldl _ _ _).
  assert (E : s1 = set_named_poses (named_poses s1) (set_named_poses ∅ s))
    by apply Hfold.
  case_bool_decide; apply ROSRobot_eq; attrs; try reflexivity;
    by rewrite E.
Qed.

(** C1, as the code has it.  A reload starts from the empty map, lays the
    auxiliary sources over it in list order, and lays the primary persisted
    source over the result last: a later auxiliary source overwrites an
    earlier one, and the primary source overwrites every auxiliary source. *)
Theorem reload_overlays_primary_last (s : ROSRobot) (name : string) :
  get name (load_config s)
  = overlay name
      (foldl (overlay name) None
         (map (fun c => entries_of (disk s !! c)) (custom_configs s)))
      (entries_of (disk s !! config_path s)).
Proof.
  unfold get, load_config. cbv zeta.
  change (custom_configs (set_named_poses ∅ s)) with (custom_configs s).
  destruct (load_aux_fold (custom_configs s) (set_named_poses ∅ s))
    as (Hd & Hc & Hn).
  cbv zeta in Hd, Hc, Hn. attrs.
  set (s1 := foldl _ _ _) in *.
  rewrite Hd, Hc. case_bool_decide as Hex.
  - attrs. rewrite load_file_lookup, Hn. by rewrite lookup_empty.
  - rewrite Hn, lookup_empty.
    assert (disk s !! config_path s = None) as ->
      by (by apply eq_None_not_Some).
    by rewrite overlay_missing.
Qed.

(** The scenario, step by step: the files as the driver finds them. *)
Lemma store_robot_files :
  disk store_robot !! "aux.yaml"%string = Some aux_file
  /\ disk store_robot !! "armer.yaml"%string = Some primary_file
  /\ custom_configs store_robot = []
  /\ config_path store_robot = "armer.yaml"%string.
Proof.
  unfold store_robot. rewrite load_config_frame. attrs.
  rewrite lookup_insert_eq, lookup_insert_ne, lookup_insert_eq by done.
  done.
Qed.

(** C1, as the specification has it, fails: in its own scenario the primary
    entry survives the auxiliary source added afterwards. *)
Lemma reload_auxiliary_does_not_overwrite :
  get "home" (snd (add_named_pose_config_cb "aux.yaml" store_robot))
  = Some zeros6
  /\ get "home" (snd (add_named_pose_config_cb "aux.yaml" store_robot))
     <> Some home_aux.
Proof.
  destruct store_robot_files as (Haux & Hprim & Hcfgs & Hpath).
  assert (E : get "home" (snd (add_named_pose_config_cb "aux.yaml" store_robot))
              = Some zeros6).
  { unfold add_named_pose_config_cb. cbv zeta. unfold snd.
    unfold get, load_config. cbv zeta. attrs.
    rewrite Hcfgs. cbn [app foldl]. attrs.
    rewrite Hpath, Haux, Hprim.
    rewrite bool_decide_eq_true_2 by eauto. attrs.
    unfold load_file, aux_file, primary_file, py_update.
    rewrite !lookup_singleton_eq.
    rewrite lookup_union, !lookup_singleton_eq, lookup_union.
    by rewrite lookup_singleton_eq. }
  split; [exact E|]. rewrite E. unfold zeros6, home_aux.
  intros H. inversion H. lra.
Qed.

(** ** The named pose store: add and remove *)

Lemma write_config_persisted (value : poses) (s : ROSRobot) :
  persisted (write_config "named_poses" value s) = value.
Proof.
  unfold persisted, write_config. cbv zeta. attrs.
  rewrite lookup_insert_eq. simpl. by rewrite lookup_insert_eq.
Qed.

(** A write keeps every other top-level key of the primary file. *)
Lemma write_config_other_keys (key other : string) (value : poses) (s : ROSRobot) :
  other <> key ->
  (disk (write_config key value s) !! config_path s) ≫= (fun doc => doc !! other)
  = (disk s !! config_path s) ≫= (fun doc => doc !! other).
Proof.
  intros Hne. unfold write_config. cbv zeta. attrs.
  rewrite lookup_insert_eq. simpl. rewrite lookup_insert_ne by done.
  destruct (disk s !! config_path s); simpl; [done | by rewrite lookup_empty].
Qed.

Lemma add_named_pose_rejects (req : AddNamedPoseRequest) (s : ROSRobot) :
  is_Some (named_poses s !! add_pose_name req) ->
  add_overwrite req = false ->
  add_named_pose_cb req s = Ret ({| success := false |}, s).
Proof.
  intros Hin Hov. unfold add_named_pose_cb.
  by rewrite bool_decide_eq_true_2, Hov.
Qed.

Lemma add_named_pose_accepts (req : AddNamedPoseRequest) (s : ROSRobot)
    (l : list R) :
  q s = NdArray l ->
  named_poses s !! add_pose_name req = None \/ add_overwrite req = true ->
  add_named_pose_cb req s
  = Ret ({| success := true |},
         write_config "named_poses" (<[add_pose_name req := l]> (named_poses s))
           (set_named_poses (<[add_pose_name req := l]> (named_poses s)) s)).
Proof.
  intros Hq Hok. unfold add_named_pose_cb. rewrite Hq.
  assert (bool_decide (is_Some (named_poses s !! add_pose_name req))
          && negb (add_overwrite req) = false) as ->; [|done].
  destruct Hok as [Hnone | ->]; [|by rewrite andb_false_r].
  rewrite bool_decide_eq_false_2; [done|]. rewrite Hnone. by intros [? ?].
Qed.

Lemma add_named_pose_success (req : AddNamedPoseRequest) (s s' : ROSRobot)
    (resp : AddNamedPoseResponse) :
  add_named_pose_cb req s = Ret (resp, s') ->
  success resp = true ->
  exists l : list R,
    q s = NdArray l
    /\ s' = write_config "named_poses"
              (<[add_pose_name req := l]> (named_poses s))
              (set_named_poses (<[add_pose_name req := l]> (named_poses s)) s).
Proof.
  unfold add_named_pose_cb. intros Hrun Hok.
  destruct (bool_decide _ && negb _).
  - injection Hrun as <- <-. done.
  - destruct (q s) as [l|l]; [|done]. injection Hrun as <- <-. by exists l.
Qed.

Lemma remove_named_pose_rejects (req : RemoveNamedPoseRequest) (s : ROSRobot) :
  named_poses s !! rm_pose_name req = None ->
  rm_overwrite req = false ->
  remove_named_pose_cb req s = Ret ({| success := false |}, s).
Proof.
  intros Hnone Hov. unfold remove_named_pose_cb. rewrite Hnone, Hov.
  rewrite bool_decide_eq_false_2; [done|]. by intros [? ?].
Qed.

Lemma remove_named_pose_raises (req : RemoveNamedPoseRequest) (s : ROSRobot) :
  named_poses s !! rm_pose_name req = None ->
  rm_overwrite req = true ->
  remove_named_pose_cb req s = Raise KeyError s.
Proof.
  intros Hnone Hov. unfold remove_named_pose_cb. rewrite Hnone, Hov.
  by rewrite andb_false_r.
Qed.

(** The parts of C4 the code keeps: an add without [overwrite] on a stored
    name is refused and changes nothing; with [overwrite] the entry is
    replaced by the live joints; a remove of a missing name is refused, and
    changes nothing, as long as the request's [overwrite] flag is unset. *)
Lemma store_mutations_reject (s : ROSRobot) (name : string) (l : list R) :
  (is_Some (named_poses s !! name) ->
   add_named_pose_cb {| add_pose_name := name; add_overwrite := false |} s
   = Ret ({| success := false |}, s))
  /\ (q s = NdArray l ->
      exists s', add_named_pose_cb
                   {| add_pose_name := name; add_overwrite := true |} s
                 = Ret ({| success := true |}, s')
                 /\ get name s' = Some l)
  /\ (named_poses s !! name = None ->
      remove_named_pose_cb {| rm_pose_name := name; rm_overwrite := false |} s
      = Ret ({| success := false |}, s)).
Proof.
  split; [|split].
  - intros Hin. by apply add_named_pose_rejects.
  - intros Hq. eexists. split.
    + apply add_named_pose_accepts; [exact Hq | by right].
    + unfold get, write_config. cbv zeta. attrs. by rewrite lookup_insert_eq.
  - intros Hnone. by apply remove_named_pose_rejects.
Qed.

(** C4, where the code departs from it: a remove of a missing name whose
    request carries [overwrite] is not refused; the [del] raises. *)
Theorem remove_missing_with_overwrite_raises :
  named_poses idle_robot !! rm_pose_name remove_ghost = None
  /\ remove_named_pose_cb remove_ghost idle_robot = Raise KeyError idle_robot.
Proof.
  assert (H : named_poses idle_robot !! rm_pose_name remove_ghost = None)
    by apply lookup_empty.
  split; [exact H|]. by apply remove_named_pose_raises.
Qed.

(** C10.  A successful add stores, and writes to the primary file, the live
    joint vector under the requested name and leaves the joints as they are;
    a second successful add under another name therefore stores the same
    vector. *)
Theorem add_named_pose_stores_live_joints (req : AddNamedPoseRequest)
    (s s' : ROSRobot) (resp : AddNamedPoseResponse) :
  add_named_pose_cb req s = Ret (resp, s') ->
  success resp = true ->
  get (add_pose_name req) s' = Some (as_list (q s))
  /\ persisted s' !! add_pose_name req = Some (as_list (q s))
  /\ q s' = q s
  /\ forall (req2 : AddNamedPoseRequest) (resp2 : AddNamedPoseResponse)
       (s'' : ROSRobot),
       add_named_pose_cb req2 s' = Ret (resp2, s'') ->
       success resp2 = true ->
       add_pose_name req2 <> add_pose_name req ->
       get (add_pose_name req2) s'' = Some (as_list (q s))
       /\ get (add_pose_name req) s'' = Some (as_list (q s)).
Proof.
  intros Hrun Hok.
  destruct (add_named_pose_success _ _ _ _ Hrun Hok) as (l & Hq & ->).
  rewrite Hq. simpl as_list.
  assert (Hget : forall s0 m, get (add_pose_name req)
                   (write_config "named_poses" m s0) = named_poses s0 !! add_pose_name req).
  { intros s0 m. unfold get, write_config. cbv zeta. by attrs. }
  split; [|split; [|split]].
  - rewrite Hget. attrs. by rewrite lookup_insert_eq.
  - rewrite write_config_persisted. by rewrite lookup_insert_eq.
  - unfold write_config. cbv zeta. by attrs.
  - intros req2 resp2 s'' Hrun2 Hok2 Hne.
    destruct (add_named_pose_success _ _ _ _ Hrun2 Hok2) as (l2 & Hq2 & ->).
    unfold write_config in Hq2. cbv zeta in Hq2. attrs.
    assert (l2 = l) as -> by congruence.
    unfold get, write_config. cbv zeta. attrs.
    rewrite lookup_insert_eq, lookup_insert_ne, lookup_insert_eq by done. done.
Qed.

Lemma add_named_pose_stores_live_joints_witness :
  exists (resp : AddNamedPoseResponse) (s' : ROSRobot),
    add_named_pose_cb add_ready idle_robot = Ret (resp, s')
    /\ success resp = true
    /\ get "ready" s' = Some zeros6.
Proof.
  assert (Hrun := add_named_pose_accepts add_ready idle_robot zeros6 eq_refl
                    (or_introl (lookup_empty _))).
  destruct (add_named_pose_stores_live_joints _ _ _ _ Hrun eq_refl)
    as (Hget & _).
  eexists _, _. split; [exact Hrun|]. split; [reflexivity | exact Hget].
Defined.

(** ** [named_pose_cb]: an unknown name *)

(** On an idle robot the abort is sent, the method does not return, and the
    lookup of the missing key raises. *)
Lemma named_pose_unknown `{K : Kinematics} (ws : list (list Event))
    (goal : MoveToNamedPoseGoal) (s : ROSRobot) :
  moving s = false ->
  named_poses s !! goal_pose_name goal = None ->
  named_pose_cb ws goal s = Raise KeyError (send unknown_named_pose s).
Proof.
  intros Hmv Hnone. unfold named_pose_cb, with_lock. cbv zeta.
  rewrite Hmv. cbv iota. rewrite Hmv, Hnone.
  rewrite bool_decide_eq_false_2 by (by intros [? ?]).
  cbn [negb]. attrs. by rewrite Hnone.
Qed.

(** C3, where the code departs from it: on an unknown name the failure result
    is sent and nothing else changes, but the request then raises [KeyError]
    instead of returning. *)
Theorem named_pose_unknown_raises :
  named_poses idle_robot !! goal_pose_name go_nowhere = None
  /\ @named_pose_cb toy_arm [] go_nowhere idle_robot
     = Raise KeyError (send unknown_named_pose idle_robot).
Proof.
  assert (H : named_poses idle_robot !! goal_pose_name go_nowhere = None)
    by apply lookup_empty.
  split; [exact H|]. by rewrite named_pose_unknown.
Qed.

(** ** [guarded_velocity_cb] *)

Lemma test_guards_none_enabled (g : Guards) (start_time : R) (s : ROSRobot) :
  enabled g = 0%Z -> GUARD_DURATION g <> 0%Z -> GUARD_EFFORT g <> 0%Z ->
  test_guards g start_time s = 0%Z.
Proof.
  intros He Hd Hf. rewrite test_guards_flags, He, !Z.land_0_l.
  destruct (Z.eqb_spec 0 (GUARD_DURATION g)) as [E|_]; [by symmetry in E|].
  destruct (Z.eqb_spec 0 (GUARD_EFFORT g)) as [E|_]; [by symmetry in E|].
  done.
Qed.

(** Whatever ended the loop, the result handed to the action server is the
    same: succeeded, with [triggered=True]. *)
Lemma guarded_velocity_result `{K : Kinematics} (ws : list (list Event))
    (msg : GuardedVelocityGoal) (s s' : ROSRobot) :
  guarded_velocity_cb ws msg s = Ret s' ->
  exists (triggered : Z) (s1 : ROSRobot),
    guarded_loop msg (clock (if moving s then preempt s else s)) ws 0
      (if moving s then preempt s else s) = Ret (triggered, s1)
    /\ s' = send (set_succeeded velocity_server (GuardedVelocityResult true)) s1.
Proof.
  unfold guarded_velocity_cb, with_lock. cbv zeta.
  destruct (moving (if moving s then preempt s else s)); [done|].
  destruct (guarded_loop _ _ _ _ _) as [[triggered s1]| |]; simpl; [|done..].
  intros [= <-]. by exists triggered, s1.
Qed.

(** The loop leaves exactly when the flag is up or a guard tripped. *)
Lemma guarded_loop_exit `{K : Kinematics} (msg : GuardedVelocityGoal)
    (start_time : R) (ws : list (list Event)) (t0 triggered : Z)
    (s s1 : ROSRobot) :
  guarded_loop msg start_time ws t0 s = Ret (triggered, s1) ->
  (preempted s1 = true /\ (triggered = t0 \/ triggered = 0%Z))
  \/ (preempted s1 = false
      /\ triggered = test_guards (gv_guards msg) start_time s1
      /\ triggered <> 0%Z).
Proof.
  revert t0 s. induction ws as [|w ws IH]; intros t0 s; simpl.
  - destruct (preempted s) eqn:Hp.
    + intros [= <- <-]. left. auto.
    + destruct (Z.eqb_spec (test_guards (gv_guards msg) start_time s) 0)
        as [E|E]; simpl; [done|].
      intros [= <- <-]. right. auto.
  - destruct (preempted s) eqn:Hp.
    + intros [= <- <-]. left. auto.
    + destruct (Z.eqb_spec (test_guards (gv_guards msg) start_time s) 0)
        as [E|E]; simpl.
      * rewrite E. intros Hrun. apply IH in Hrun.
        destruct Hrun as [[H1 [H2|H2]]|H]; auto.
      * intros [= <- <-]. right. auto.
Qed.

(** C2, where the code departs from it: no guard is enabled, the stop service
    preempts during the first sleep, the loop ends with [triggered = 0], and
    the result still reports a trigger. *)
Theorem guarded_velocity_preempted_reports_trigger :
  let s1 := preempt (@vel_move toy_arm (gv_twist_stamped unguarded_goal) idle_robot) in
  @guarded_loop toy_arm unguarded_goal 0 [[EvPreempt]] 0 idle_robot
  = Ret (0%Z, s1)
  /\ @guarded_velocity_cb toy_arm [[EvPreempt]] unguarded_goal idle_robot
     = Ret (send (set_succeeded velocity_server (GuardedVelocityResult true)) s1).
Proof.
  intros s1.
  assert (E : @guarded_loop toy_arm unguarded_goal 0 [[EvPreempt]] 0 idle_robot
              = Ret (0%Z, s1)).
  { cbn [guarded_loop]. change (preempted idle_robot) with false. cbv iota.
    rewrite test_guards_none_enabled by done. cbn [Z.eqb negb resume foldl handle].
    fold s1. change (preempted s1) with true. cbv iota. reflexivity. }
  split; [exact E|].
  unfold guarded_velocity_cb, with_lock. cbv zeta.
  change (moving idle_robot) with false. cbv iota.
  change (clock idle_robot) with 0. by rewrite E.
Qed.

(** ** [__traj_move]: the speed cap *)

Lemma sum_squares_nonneg (v : list R) : 0 <= sum_squares v.
Proof. induction v as [|a v IH]; simpl; [lra | nra]. Qed.

Lemma norm_nonneg (v : list R) : 0 <= norm v.
Proof. apply sqrt_pos. Qed.

Lemma sum_squares_vscale (c : R) (v : list R) :
  sum_squares (vscale c v) = c * c * sum_squares v.
Proof. induction v as [|a v IH]; simpl; [lra | rewrite IH; lra]. Qed.

Lemma norm_vscale (c : R) (v : list R) : norm (vscale c v) = Rabs c * norm v.
Proof.
  unfold norm.
  rewrite sum_squares_vscale, sqrt_mult;
    [| nra | apply sum_squares_nonneg].
  f_equal. apply sqrt_Rsqr_abs.
Qed.

Lemma sum_squares_app (a b : list R) :
  sum_squares (a ++ b) = sum_squares a + sum_squares b.
Proof. induction a as [|x a IH]; simpl; [lra | rewrite IH; lra]. Qed.

Lemma sum_squares_zero (v : list R) :
  Forall (fun c => c = 0) v -> sum_squares v = 0.
Proof. induction 1 as [|c v -> _ IH]; simpl; [done | rewrite IH; lra]. Qed.

Lemma norm_linear_part (twist : list R) :
  Forall (fun c => c = 0) (drop 3 twist) -> norm twist = norm (take 3 twist).
Proof.
  intros Hz. unfold norm.
  rewrite <- (take_drop 3 twist) at 1.
  rewrite sum_squares_app, (sum_squares_zero _ Hz). f_equal. lra.
Qed.

Lemma normalised_vel_vscale (twist : list R) (linear_vel max_speed : R) :
  vscale max_speed (map (fun c => c / linear_vel) twist)
  = vscale (max_speed / linear_vel) twist.
Proof.
  unfold vscale. rewrite map_map. apply map_ext. intros c.
  unfold Rdiv. ring.
Qed.

(** The factor of a capped step. *)
Lemma time_scaling_capped (twist : list R) (max_speed : R) :
  norm (take 3 twist) > max_speed ->
  time_scaling_of twist max_speed
  = norm (vscale (max_speed / norm (take 3 twist)) twist) / norm (take 3 twist).
Proof.
  intros Hgt. unfold time_scaling_of. cbv zeta.
  apply Rgtb_true in Hgt. by rewrite Hgt, normalised_vel_vscale.
Qed.

Lemma time_scaling_uncapped (twist : list R) (max_speed : R) :
  norm (take 3 twist) <= max_speed -> time_scaling_of twist max_speed = 1.
Proof.
  intros Hle. unfold time_scaling_of. cbv zeta.
  destruct (Rgtb _ _) eqn:E; [|done]. apply Rgtb_true in E. lra.
Qed.

Lemma capped_factor_product (twist : list R) (max_speed : R) :
  norm (take 3 twist) > max_speed -> 0 <= max_speed ->
  norm (vscale (max_speed / norm (take 3 twist)) twist) / norm (take 3 twist)
  = max_speed / norm (take 3 twist) * (norm twist / norm (take 3 twist)).
Proof.
  intros Hgt Hms. set (lin := norm (take 3 twist)) in *.
  rewrite norm_vscale, Rabs_pos_eq.
  - unfold Rdiv. ring.
  - apply Rmult_le_pos; [lra|]. apply Rlt_le, Rinv_0_lt_compat. lra.
Qed.

(** The factor of a capped step, for every step.  When the linear speed
    exceeds [max_speed], the joint command and the time increment are both
    scaled by one factor: the norm, over all six components, of the twist
    scaled by [max_speed / linear_speed], divided by the linear speed.  For a
    non-negative [max_speed] this is [max_speed / linear_speed] times the
    ratio of the full twist norm to the linear speed, and it is
    [max_speed / linear_speed] only when the angular part of the twist is
    zero. *)
Theorem speed_cap_scaling `{K : Kinematics} (end_point : list R) (delta : R)
    (time_freq : Z) (max_speed t : R) (time : Z) (s : ROSRobot) :
  let jV := jerk_velocity (frequency s) time_freq time end_point
              (as_list (q s)) in
  let twist := matvec (jacob0 (as_list (q s))) jV in
  let linear_speed := norm (take 3 twist) in
  let factor := norm (vscale (max_speed / linear_speed) twist) / linear_speed in
  linear_speed > max_speed ->
  traj_body end_point delta time_freq max_speed t time s
  = (t + delta * factor,
     set_last_update (clock s) (set_j_v (NdArray (vscale factor jV)) s))
  /\ (0 <= max_speed ->
      factor = max_speed / linear_speed * (norm twist / linear_speed))
  /\ (0 <= max_speed -> Forall (fun c => c = 0) (drop 3 twist) ->
      factor = max_speed / linear_speed).
Proof.
  intros jV twist linear_speed factor Hgt.
  assert (Hprod : 0 <= max_speed ->
            factor = max_speed / linear_speed * (norm twist / linear_speed))
    by (intros Hms; by apply capped_factor_product).
  split; [|split].
  - unfold traj_body. cbv zeta. fold jV. fold twist.
    by rewrite time_scaling_capped.
  - exact Hprod.
  - intros Hms Hz. rewrite (Hprod Hms), (norm_linear_part _ Hz).
    fold linear_speed. field. lra.
Qed.

(** The concrete step used below: screw joint, half way through a
    20000-step profile from 0 towards 1 at 500 Hz. *)
Lemma screw_step_velocity : jerk_velocity 500 20000 10000 [1] [0] = [1125 / 16].
Proof.
  unfold jerk_velocity, vsub, vscale, kP. cbn [zip_with map]. f_equal. field.
Qed.

Lemma screw_step_twist :
  matvec (@jacob0 screw_axis [0]) [1125 / 16]
  = [3375 / 16; 0; 0; 1125 / 4; 0; 0].
Proof.
  unfold matvec, dot. cbn [jacob0 screw_axis map zip_with fold_right].
  vec_eq.
Qed.

Lemma norm_by_square (v : list R) (r : R) :
  0 <= r -> sum_squares v = r * r -> norm v = r.
Proof.
  intros Hr Hsq. unfold norm. rewrite Hsq.
  by apply sqrt_square.
Qed.

Lemma screw_step_linear_speed :
  norm (take 3 [3375 / 16; 0; 0; 1125 / 4; 0; 0]) = 3375 / 16.
Proof.
  apply norm_by_square; [lra|]. cbn [take sum_squares fold_right]. lra.
Qed.

Lemma screw_step_scaling :
  time_scaling_of [3375 / 16; 0; 0; 1125 / 4; 0; 0] 0.2 = 16 / 10125.
Proof.
  rewrite time_scaling_capped; rewrite screw_step_linear_speed; [|lra].
  rewrite (norm_by_square _ (1 / 3)); [lra | lra |].
  unfold vscale. cbn [map sum_squares fold_right]. lra.
Qed.

(** C6, where the code departs from it: on the screw joint, with a cap of
    0.2, a step whose linear speed is 3375/16 is scaled by 16/10125 where
    [max_speed / linear_speed] is 16/16875, for the joint command and for the
    time increment alike; the command stored moves the end-effector at a
    linear speed of 1/3, above the cap. *)
Theorem speed_cap_factor_differs :
  let twist := matvec (@jacob0 screw_axis [0])
                 (jerk_velocity 500 20000 10000 [1] [0]) in
  norm (take 3 twist) > 0.2
  /\ @traj_body screw_axis [1] (1 / 500) 20000 0.2 0 10000 one_joint_robot
     = (0 + 1 / 500 * (16 / 10125),
        set_last_update 0 (set_j_v (NdArray [1125 / 16 * (16 / 10125)])
                             one_joint_robot))
  /\ 16 / 10125 <> 0.2 / norm (take 3 twist)
  /\ norm (take 3 (matvec (@jacob0 screw_axis [0])
                     [1125 / 16 * (16 / 10125)])) = 1 / 3.
Proof.
  intros twist. subst twist.
  rewrite screw_step_velocity, screw_step_twist, screw_step_linear_speed.
  split; [lra|]. split; [|split; [lra|]].
  - unfold traj_body. cbv zeta.
    change (frequency one_joint_robot) with 500.
    change (as_list (q one_joint_robot)) with [0].
    rewrite screw_step_velocity, screw_step_twist, screw_step_scaling.
    reflexivity.
  - unfold matvec, dot. cbn [jacob0 screw_axis map zip_with fold_right take].
    apply norm_by_square; [lra|]. cbn [sum_squares fold_right]. lra.
Qed.

Lemma speed_cap_scaling_witness :
  let jV := jerk_velocity (frequency one_joint_robot) 20000 10000 [1]
              (as_list (q one_joint_robot)) in
  let twist := matvec (@jacob0 screw_axis (as_list (q one_joint_robot))) jV in
  let linear_speed := norm (take 3 twist) in
  linear_speed > 0.2
  /\ norm (vscale (0.2 / linear_speed) twist) / linear_speed
     = 0.2 / linear_speed * (norm twist / linear_speed).
Proof.
  intros jV twist linear_speed.
  assert (Hgt : linear_speed > 0.2).
  { subst linear_speed twist jV.
    change (frequency one_joint_robot) with 500.
    change (as_list (q one_joint_robot)) with [0].
    rewrite screw_step_velocity, screw_step_twist, screw_step_linear_speed.
    lra. }
  split; [exact Hgt|].
  destruct (@speed_cap_scaling screw_axis [1] (1 / 500) 20000 0.2 0 10000
              one_joint_robot Hgt) as (_ & Hprod & _).
  apply Hprod. lra.
Defined.

(** ** [__traj_move]: how the loop ends *)

(** The loop, one iteration unfolded. *)
Lemma traj_loop_unfold `{K : Kinematics} (end_point : list R)
    (total_time_cal delta : R) (time_freq : Z) (max_speed : R)
    (ws : list (list Event)) (t : R) (time : Z) (s : ROSRobot) :
  traj_loop end_point total_time_cal delta time_freq max_speed ws t time s
  = if negb (Rltb (t + delta) total_time_cal && negb (preempted s))
    then Ret (t, s)
    else if close_to_goal end_point s then Ret (t, s)
    else if (time_freq =? 0)%Z then Raise ZeroDivisionError s
    else
      match ws with
      | [] => Blocked
      | w :: ws' =>
          traj_loop end_point total_time_cal delta time_freq max_speed ws'
            (fst (traj_body end_point delta time_freq max_speed t time s))
            (time + 1)%Z
            (resume w (snd (traj_body end_point delta time_freq max_speed
                              t time s)))
      end.
Proof. destruct ws; reflexivity. Qed.

Lemma traj_loop_exit_now `{K : Kinematics} (end_point : list R)
    (total_time_cal delta : R) (time_freq : Z) (max_speed : R)
    (ws : list (list Event)) (t : R) (time : Z) (s : ROSRobot) :
  traj_exit end_point total_time_cal delta t s ->
  traj_loop end_point total_time_cal delta time_freq max_speed ws t time s
  = Ret (t, s).
Proof.
  intros Hexit. rewrite traj_loop_unfold.
  destruct (Rltb (t + delta) total_time_cal) eqn:Hlt; [|done].
  destruct (preempted s) eqn:Hp; [done|]. cbn [andb negb].
  destruct Hexit as [-> | [Hle | Hpre]]; [done | | congruence].
  apply Rltb_true in Hlt. lra.
Qed.

Lemma traj_loop_exit_cause `{K : Kinematics} (end_point : list R)
    (total_time_cal delta : R) (time_freq : Z) (max_speed : R)
    (ws : list (list Event)) (t : R) (time : Z) (s : ROSRobot)
    (t' : R) (s' : ROSRobot) :
  traj_loop end_point total_time_cal delta time_freq max_speed ws t time s
  = Ret (t', s') ->
  traj_exit end_point total_time_cal delta t' s'.
Proof.
  revert t time s. induction ws as [|w ws IH]; intros t time s;
    rewrite traj_loop_unfold.
  all: destruct (Rltb (t + delta) total_time_cal) eqn:Hlt;
    [| intros [= <- <-]; right; left; by apply Rltb_false].
  all: destruct (preempted s) eqn:Hp;
    [intros [= <- <-]; right; by right|]; cbn [andb negb].
  all: destruct (close_to_goal end_point s) eqn:Hc;
    [intros [= <- <-]; by left|].
  all: destruct (time_freq =? 0)%Z; [done|].
  - done.
  - apply IH.
Qed.

Lemma inv_nonneg (r : R) : 0 <= r -> 0 <= / r.
Proof.
  intros [Hpos | <-].
  - apply Rlt_le. by apply Rinv_0_lt_compat.
  - rewrite Rinv_0. lra.
Qed.

Lemma time_scaling_nonneg (twist : list R) (max_speed : R) :
  0 <= time_scaling_of twist max_speed.
Proof.
  unfold time_scaling_of. cbv zeta. destruct (Rgtb _ _); [|lra].
  apply Rmult_le_pos; [apply norm_nonneg | apply inv_nonneg, norm_nonneg].
Qed.

Lemma traj_body_time `{K : Kinematics} (end_point : list R) (delta : R)
    (time_freq : Z) (max_speed t : R) (time : Z) (s : ROSRobot) :
  0 <= delta -> t <= fst (traj_body end_point delta time_freq max_speed t time s).
Proof.
  intros Hd. unfold traj_body. cbv zeta. cbn [fst].
  pose proof (time_scaling_nonneg
    (matvec (jacob0 (as_list (q s)))
       (jerk_velocity (frequency s) time_freq time end_point (as_list (q s))))
    max_speed). nra.
Qed.

(** With a positive period and a step count that is zero only when the
    estimated duration is within one period, the division by the step count
    is never reached with a zero divisor. *)
Lemma traj_loop_no_raise `{K : Kinematics} (end_point : list R)
    (total_time_cal delta : R) (time_freq : Z) (max_speed : R)
    (ws : list (list Event)) (t : R) (time : Z) (s : ROSRobot)
    (e : exn) (s' : ROSRobot) :
  0 < delta -> 0 <= t ->
  (delta < total_time_cal -> time_freq <> 0%Z) ->
  traj_loop end_point total_time_cal delta time_freq max_speed ws t time s
  <> Raise e s'.
Proof.
  intros Hd Ht Hfreq. revert t time s Ht.
  induction ws as [|w ws IH]; intros t time s Ht; rewrite traj_loop_unfold.
  all: destruct (Rltb (t + delta) total_time_cal) eqn:Hlt; [|done].
  all: destruct (preempted s); [done|]; cbn [andb negb].
  all: destruct (close_to_goal end_point s); [done|].
  all: apply Rltb_true in Hlt.
  all: destruct (Z.eqb_spec time_freq 0) as [E|_]; [exfalso; apply Hfreq; [lra | done]|].
  - done.
  - apply IH. pose proof (traj_body_time end_point delta time_freq max_speed t time s). lra.
Qed.

(** What the other threads leave alone: the preemption flag is only ever
    raised by them, never cleared. *)
Lemma track_cartesian_preempted `{K : Kinematics} (dt t : R) (s : ROSRobot) :
  preempted (track_cartesian dt t s) = preempted s.
Proof. unfold track_cartesian. cbv zeta. attrs. by destruct (stale t s). Qed.

Lemma decay_joint_preempted (t : R) (s : ROSRobot) :
  preempted (after (decay_joint t s) s) = preempted s.
Proof.
  unfold decay_joint.
  destruct (py_any _); [|done]. destruct (stale t s); [|done].
  destruct (Rgeb _ _); [|done]. by destruct (imul_float 0.9 (j_v s)).
Qed.

Lemma step_preempted `{K : Kinematics} (dt : R) (s : ROSRobot) :
  preempted (after (step dt s) s) = preempted s.
Proof.
  unfold step. destruct (readonly s); [done|]. cbv zeta.
  set (s1 := if py_any _ then _ else _).
  assert (E1 : preempted s1 = preempted s).
  { subst s1. destruct (py_any _); [|done].
    by rewrite track_cartesian_preempted. }
  pose proof (decay_joint_preempted (clock s) s1) as E2.
  destruct (decay_joint (clock s) s1) as [s2| |]; cbn in *; congruence.
Qed.

Lemma find_indexes_preempted (names msg_names : list string) (s : ROSRobot) :
  preempted (after (find_indexes names msg_names s) s) = preempted s.
Proof.
  revert s. induction names as [|name names IH]; intros s; simpl; [done|].
  destruct (py_index name msg_names) as [i|]; [|done].
  specialize (IH (set_joint_indexes (joint_indexes s ++ [i]) s)).
  destruct (find_indexes _ _ _); simpl in *; done.
Qed.

Lemma state_cb_preempted (msg : JointState) (s : ROSRobot) :
  preempted (after (_state_cb msg s) s) = preempted s.
Proof.
  unfold _state_cb.
  pose proof (find_indexes_preempted (joint_names s) (js_name msg) s) as E.
  case_bool_decide; [|done].
  destruct (find_indexes _ _ _); simpl in *; done.
Qed.

Lemma handle_preempted `{K : Kinematics} (s : ROSRobot) (ev : Event) :
  preempted (handle s ev)
  = match ev with EvPreempt => true | _ => preempted s end.
Proof.
  destruct ev; simpl; [done | apply state_cb_preempted | done
                      | apply step_preempted].
Qed.

Lemma resume_cons `{K : Kinematics} (ev : Event) (w : list Event)
    (s : ROSRobot) :
  resume (ev :: w) s = resume w (handle s ev).
Proof. reflexivity. Qed.

Lemma resume_keeps_preempted `{K : Kinematics} (w : list Event) (s : ROSRobot) :
  preempted s = true -> preempted (resume w s) = true.
Proof.
  revert s. induction w as [|ev w IH]; intros s Hp; [done|].
  rewrite resume_cons. apply IH. rewrite handle_preempted. by destruct ev.
Qed.

Lemma resume_preempts `{K : Kinematics} (w : list Event) (s : ROSRobot) :
  EvPreempt ∈ w -> preempted (resume w s) = true.
Proof.
  revert s. induction w as [|ev w IH]; intros s Hin.
  - by apply elem_of_nil in Hin.
  - rewrite resume_cons. apply elem_of_cons in Hin as [<- | Hin].
    + by apply resume_keeps_preempted.
    + by apply IH.
Qed.

(** Once some wait sees the stop request, the loop returns. *)
Lemma traj_loop_preempt_scheduled `{K : Kinematics} (end_point : list R)
    (total_time_cal delta : R) (time_freq : Z) (max_speed : R)
    (ws : list (list Event)) (t : R) (time : Z) (s : ROSRobot) :
  0 < delta -> 0 <= t ->
  (delta < total_time_cal -> time_freq <> 0%Z) ->
  Exists (fun w => EvPreempt ∈ w) ws ->
  exists (t' : R) (s' : ROSRobot),
    traj_loop end_point total_time_cal delta time_freq max_speed ws t time s
    = Ret (t', s').
Proof.
  intros Hd Ht Hfreq Hex. revert t time s Ht.
  induction Hex as [w ws Hin | w ws _ IH]; intros t time s Ht.
  all: rewrite traj_loop_unfold.
  all: destruct (Rltb (t + delta) total_time_cal) eqn:Hlt; [|by eauto].
  all: destruct (preempted s); [by eauto|]; cbn [andb negb].
  all: destruct (close_to_goal end_point s); [by eauto|].
  all: apply Rltb_true in Hlt.
  all: destruct (Z.eqb_spec time_freq 0) as [E|_];
    [exfalso; apply Hfreq; [lra | done]|].
  - rewrite traj_loop_exit_now; [by eauto|].
    right. right. by apply resume_preempts.
  - apply IH.
    pose proof (traj_body_time end_point delta time_freq max_speed t time s).
    lra.
Qed.

Lemma py_int_positive (r : R) : 1 < r -> py_int r <> 0%Z.
Proof.
  intros Hr. unfold py_int. destruct (Rle_dec 0 r) as [_|Hn]; [|lra].
  destruct (base_Int_part r) as [_ Hlow]. intros E. rewrite E in Hlow.
  simpl in Hlow. lra.
Qed.

(** The number of joints is fixed, whatever the other threads do. *)
Lemma track_cartesian_n `{K : Kinematics} (dt t : R) (s : ROSRobot) :
  n (track_cartesian dt t s) = n s.
Proof. unfold track_cartesian. cbv zeta. attrs. by destruct (stale t s). Qed.

Lemma decay_joint_n (t : R) (s : ROSRobot) :
  n (after (decay_joint t s) s) = n s.
Proof.
  unfold decay_joint.
  destruct (py_any _); [|done]. destruct (stale t s); [|done].
  destruct (Rgeb _ _); [|done]. by destruct (imul_float 0.9 (j_v s)).
Qed.

Lemma step_n `{K : Kinematics} (dt : R) (s : ROSRobot) :
  n (after (step dt s) s) = n s.
Proof.
  unfold step. destruct (readonly s); [done|]. cbv zeta.
  set (s1 := if py_any _ then _ else _).
  assert (E1 : n s1 = n s).
  { subst s1. destruct (py_any _); [|done]. by rewrite track_cartesian_n. }
  pose proof (decay_joint_n (clock s) s1) as E2.
  destruct (decay_joint (clock s) s1) as [s2| |]; cbn in *; congruence.
Qed.

Lemma find_indexes_n (names msg_names : list string) (s : ROSRobot) :
  n (after (find_indexes names msg_names s) s) = n s.
Proof.
  revert s. induction names as [|name names IH]; intros s; simpl; [done|].
  destruct (py_index name msg_names) as [i|]; [|done].
  specialize (IH (set_joint_indexes (joint_indexes s ++ [i]) s)).
  destruct (find_indexes _ _ _); simpl in *; done.
Qed.

Lemma state_cb_n (msg : JointState) (s : ROSRobot) :
  n (after (_state_cb msg s) s) = n s.
Proof.
  unfold _state_cb.
  pose proof (find_indexes_n (joint_names s) (js_name msg) s) as E.
  case_bool_decide; [|done].
  destruct (find_indexes _ _ _); simpl in *; done.
Qed.

Lemma resume_n `{K : Kinematics} (w : list Event) (s : ROSRobot) :
  n (resume w s) = n s.
Proof.
  revert s. induction w as [|ev w IH]; intros s; [done|].
  rewrite resume_cons, IH.
  destruct ev; simpl; [done | apply state_cb_n | done | apply step_n].
Qed.

Lemma traj_loop_n `{K : Kinematics} (end_point : list R)
    (total_time_cal delta : R) (time_freq : Z) (max_speed : R)
    (ws : list (list Event)) (t : R) (time : Z) (s : ROSRobot)
    (t' : R) (s' : ROSRobot) :
  traj_loop end_point total_time_cal delta time_freq max_speed ws t time s
  = Ret (t', s') ->
  n s' = n s.
Proof.
  revert t time s. induction ws as [|w ws IH]; intros t time s;
    rewrite traj_loop_unfold.
  all: destruct (negb _); [by intros [= <- <-]|].
  all: destruct (close_to_goal end_point s); [by intros [= <- <-]|].
  all: destruct (time_freq =? 0)%Z; [done|].
  - done.
  - intros Hrun. apply IH in Hrun. by rewrite Hrun, resume_n.
Qed.

(** ** [__traj_move]: the loop test is the specification's *)

Lemma close_to_goal_arrived (goal : list R) (s : ROSRobot) :
  close_to_goal goal s = true <-> arrived goal (as_list (q s)).
Proof.
  unfold close_to_goal, arrived, vsub.
  generalize (as_list (q s)) as position. clear s.
  induction goal as [|g0 goal IH]; intros [|p0 position]; cbn [zip_with forallb].
  1-3: split; [intros _ j g p Hg Hp; by destruct j | done].
  rewrite andb_true_iff, Rltb_true, IH. split.
  - intros [H0 H] [|j] g p Hg Hp; cbn in Hg, Hp.
    + injection Hg as <-. injection Hp as <-. exact H0.
    + by apply (H j).
  - intros H. split.
    + by apply (H 0%nat).
    + intros j g p Hg Hp. by apply (H (S j)).
Qed.

Lemma abs_over_av_vel (d : R) : Rabs (d / av_vel) = Rabs d / 0.025.
Proof.
  unfold av_vel, Rdiv. rewrite Rabs_mult. f_equal.
  apply Rabs_pos_eq. lra.
Qed.

Lemma total_time_estimated (goal start : list R) :
  estimated_duration goal start (total_time goal start).
Proof.
  unfold estimated_duration, total_time, vsub. revert start.
  induction goal as [|g0 goal IH]; intros [|p0 start];
    cbn [zip_with map foldr].
  1-3: split; [intros j g p Hg Hp; by destruct j | by left].
  destruct (IH start) as [Hub Hmax]. rewrite abs_over_av_vel.
  set (rest := foldr Rmax 0 _) in *. split.
  - intros [|j] g p Hg Hp; cbn in Hg, Hp.
    + injection Hg as <-. injection Hp as <-. apply Rmax_l.
    + etrans; [by apply (Hub j)|]. apply Rmax_r.
  - destruct (Rle_dec (Rabs (g0 - p0) / 0.025) rest) as [Hle | Hgt].
    + rewrite Rmax_right by done.
      destruct Hmax as [E | (j & g & p & Hg & Hp & E)]; [by left|].
      right. by exists (S j), g, p.
    + rewrite Rmax_left by lra. right. by exists 0%nat, g0, p0.
Qed.

Lemma estimated_duration_unique (goal start : list R) (T1 T2 : R) :
  estimated_duration goal start T1 -> estimated_duration goal start T2 ->
  T1 = T2.
Proof.
  intros [Hub1 Hmax1] [Hub2 Hmax2].
  assert (Hpos : forall T,
            (T = 0 \/ exists (j : nat) (g p : R),
                        goal !! j = Some g /\ start !! j = Some p
                        /\ T = Rabs (g - p) / 0.025) -> 0 <= T).
  { intros T [-> | (j & g & p & _ & _ & ->)]; [lra|].
    pose proof (Rabs_pos (g - p)). lra. }
  assert (Hle : forall Ta Tb,
            (Ta = 0 \/ exists (j : nat) (g p : R),
                         goal !! j = Some g /\ start !! j = Some p
                         /\ Ta = Rabs (g - p) / 0.025) ->
            (forall (j : nat) (g p : R),
                goal !! j = Some g -> start !! j = Some p ->
                Rabs (g - p) / 0.025 <= Tb) ->
            0 <= Tb -> Ta <= Tb).
  { intros Ta Tb [-> | (j & g & p & Hg & Hp & ->)] Hub Hb; [done|].
    by apply (Hub j). }
  apply Rle_antisym; apply Hle; auto.
Qed.

(** The test at the head of the loop, run with the duration the code
    computes, is the one of the specification. *)
Lemma run_over_traj_exit (goal start : list R) (delta t : R) (s : ROSRobot) :
  run_over goal start delta t s
  <-> traj_exit goal (total_time goal start) delta t s.
Proof.
  unfold run_over, traj_exit. rewrite close_to_goal_arrived.
  split; (intros [H | [H | H]]; [by left | right; left | by right; right]).
  - destruct H as (T & HT & Hle).
    by rewrite (estimated_duration_unique _ _ _ _
                  (total_time_estimated goal start) HT).
  - exists (total_time goal start). split; [apply total_time_estimated | done].
Qed.

(** ** [__traj_move]: running out of time *)

Lemma traj_body_uncapped `{K : Kinematics} (end_point : list R) (delta : R)
    (time_freq : Z) (max_speed t : R) (time : Z) (s : ROSRobot) :
  (forall joints velocity : list R,
      norm (take 3 (matvec (jacob0 joints) velocity)) <= max_speed) ->
  fst (traj_body end_point delta time_freq max_speed t time s) = t + delta.
Proof.
  intros Hcap. unfold traj_body. cbv zeta. cbn [fst].
  rewrite time_scaling_uncapped by apply Hcap. lra.
Qed.

(** When the cap never applies, every step advances the profile by one
    period, and a schedule with enough waits sees the loop return. *)
Lemma traj_loop_runs_out `{K : Kinematics} (end_point : list R)
    (total_time_cal delta : R) (time_freq : Z) (max_speed : R)
    (ws : list (list Event)) (t : R) (time : Z) (s : ROSRobot) :
  0 < delta -> 0 <= t ->
  (delta < total_time_cal -> time_freq <> 0%Z) ->
  (forall joints velocity : list R,
      norm (take 3 (matvec (jacob0 joints) velocity)) <= max_speed) ->
  total_time_cal <= t + (INR (length ws) + 1) * delta ->
  exists (t' : R) (s' : ROSRobot),
    traj_loop end_point total_time_cal delta time_freq max_speed ws t time s
    = Ret (t', s').
Proof.
  intros Hd Ht Hfreq Hcap. revert t time s Ht.
  induction ws as [|w ws IH]; intros t time s Ht Hlen;
    rewrite traj_loop_unfold.
  all: destruct (Rltb (t + delta) total_time_cal) eqn:Hlt; [|by eauto].
  all: destruct (preempted s); [by eauto|]; cbn [andb negb].
  all: destruct (close_to_goal end_point s); [by eauto|].
  all: apply Rltb_true in Hlt.
  all: destruct (Z.eqb_spec time_freq 0) as [E|_];
    [exfalso; apply Hfreq; [lra | done]|].
  - cbn [length INR] in Hlen. lra.
  - rewrite traj_body_uncapped by done. apply IH; [lra|].
    cbn [length] in Hlen. rewrite S_INR in Hlen. lra.
Qed.

(** ** [__traj_move]: the flag at the exit *)

Lemma resume_flag_down `{K : Kinematics} (w : list Event) (s : ROSRobot) :
  preempted s = false -> EvPreempt ∉ w -> preempted (resume w s) = false.
Proof.
  revert s. induction w as [|ev w IH]; intros s Hp Hnot; [done|].
  rewrite resume_cons. apply IH.
  - rewrite handle_preempted. destruct ev; try done.
    exfalso. apply Hnot. constructor.
  - intros Hin. apply Hnot. by constructor.
Qed.

Lemma traj_body_preempted `{K : Kinematics} (end_point : list R) (delta : R)
    (time_freq : Z) (max_speed t : R) (time : Z) (s : ROSRobot) :
  preempted (snd (traj_body end_point delta time_freq max_speed t time s))
  = preempted s.
Proof. unfold traj_body. cbv zeta. cbn [snd]. by attrs. Qed.

Lemma traj_loop_flag_down `{K : Kinematics} (end_point : list R)
    (total_time_cal delta : R) (time_freq : Z) (max_speed : R)
    (ws : list (list Event)) (t : R) (time : Z) (s : ROSRobot)
    (t' : R) (s' : ROSRobot) :
  preempted s = false ->
  Forall (fun w => EvPreempt ∉ w) ws ->
  traj_loop end_point total_time_cal delta time_freq max_speed ws t time s
  = Ret (t', s') ->
  preempted s' = false.
Proof.
  intros Hp Hws. revert t time s Hp.
  induction Hws as [|w ws Hw Hws IH]; intros t time s Hp;
    rewrite traj_loop_unfold.
  all: destruct (negb _); [by intros [= _ <-]|].
  all: destruct (close_to_goal end_point s); [by intros [= _ <-]|].
  all: destruct (time_freq =? 0)%Z; [done|].
  - done.
  - apply IH. apply resume_flag_down; [|done].
    by rewrite traj_body_preempted.
Qed.

(** C5.  At a positive control frequency a trajectory run never raises.  Its
    loop, run with the estimated duration of the specification, returns at
    the first iteration that finds every joint within 0.02 of the goal, the
    profile time within one period of the estimated duration, or the
    preemption flag raised.  The run returns when one of the three holds at
    entry, once a stop request is scheduled, and, on an arm whose linear
    speed never exceeds the cap, as soon as the schedule has as many waits
    as the estimated duration has periods.  When the run returns, one of the
    three held where the loop left; the joint velocity target is then a list
    of [n] zeros, the driver is no longer moving, the flag is cleared, and
    the boolean returned is the negation of the flag as the loop left it: it
    is true whenever no stop was requested. *)
Theorem traj_move_exit `{K : Kinematics} (traj : matrix) (max_speed : R)
    (ws : list (list Event)) (s : ROSRobot) :
  0 < frequency s ->
  let goal := qfunc1 traj in
  let start := as_list (q s) in
  let delta := 1 / frequency s in
  (forall (e : exn) (s' : ROSRobot),
      traj_move traj max_speed ws s <> Raise e s')
  /\ (run_over goal start delta 0 s
      \/ Exists (fun w => EvPreempt ∈ w) ws
      \/ ((forall joints velocity : list R,
              norm (take 3 (matvec (jacob0 joints) velocity)) <= max_speed)
          /\ forall T : R, estimated_duration goal start T ->
                           T <= (INR (length ws) + 1) * delta) ->
      exists (r : bool) (s' : ROSRobot),
        traj_move traj max_speed ws s = Ret (r, s'))
  /\ (forall (T : R) (ws' : list (list Event)) (t : R) (time : Z)
        (s0 : ROSRobot),
        estimated_duration goal start T ->
        run_over goal start delta t s0 ->
        traj_loop goal T delta (py_int (T * frequency s)) max_speed ws' t time
          s0 = Ret (t, s0))
  /\ (forall (r : bool) (s' : ROSRobot),
        traj_move traj max_speed ws s = Ret (r, s') ->
        exists (T t_exit : R) (s_exit : ROSRobot),
          estimated_duration goal start T
          /\ traj_loop goal T delta (py_int (T * frequency s)) max_speed ws
               0 1 (set_moving true s) = Ret (t_exit, s_exit)
          /\ run_over goal start delta t_exit s_exit
          /\ r = negb (preempted s_exit)
          /\ (preempted s = false -> Forall (fun w => EvPreempt ∉ w) ws ->
              r = true)
          /\ j_v s' = PyList (repeat 0 (n s))
          /\ moving s' = false
          /\ preempted s' = false).
Proof.
  intros Hf goal start delta.
  set (total := total_time goal start).
  set (time_freq := py_int (total * frequency s)).
  assert (Hest : estimated_duration goal start total)
    by apply total_time_estimated.
  assert (Hd : 0 < delta).
  { subst delta. unfold Rdiv. rewrite Rmult_1_l. by apply Rinv_0_lt_compat. }
  assert (Hfreq : delta < total -> time_freq <> 0%Z).
  { intros Hlt. apply py_int_positive. subst delta.
    apply (Rmult_lt_compat_r (frequency s)) in Hlt; [|done].
    replace (1 / frequency s * frequency s) with 1 in Hlt; [done|].
    field. lra. }
  assert (Hmove : traj_move traj max_speed ws s
                  = ('(_, s1) ← traj_loop goal total delta time_freq
                                  max_speed ws 0 1 (set_moving true s);
                     Ret (negb (preempted s1),
                          set_preempted false
                            (set_moving false
                               (set_j_v (PyList (repeat 0 (n s1))) s1))))).
  { unfold traj_move. cbv zeta. attrs.
    rewrite bool_decide_eq_false_2 by lra. reflexivity. }
  split; [|split; [|split]].
  - intros e s' Hraise. rewrite Hmove in Hraise.
    destruct (traj_loop _ _ _ _ _ _ _ _ _) as [[t1 s1]| e1 s1|] eqn:Hloop;
      simpl in Hraise; [done | | done].
    by apply traj_loop_no_raise in Hloop.
  - intros Hsched. rewrite Hmove.
    assert (exists t1 s1,
              traj_loop goal total delta time_freq max_speed ws 0 1
                (set_moving true s) = Ret (t1, s1)) as (t1 & s1 & ->).
    { destruct Hsched as [Hexit | [Hex | [Hcap Hlen]]].
      - rewrite traj_loop_exit_now; [by eauto|].
        by apply run_over_traj_exit in Hexit.
      - by apply traj_loop_preempt_scheduled.
      - apply traj_loop_runs_out; try done. rewrite Rplus_0_l.
        by apply Hlen. }
    simpl. by eauto.
  - intros T ws' t time s0 HT Hexit.
    rewrite (estimated_duration_unique _ _ _ _ HT Hest).
    apply traj_loop_exit_now. by apply run_over_traj_exit.
  - intros r s' Hrun. rewrite Hmove in Hrun.
    destruct (traj_loop _ _ _ _ _ _ _ _ _) as [[t1 s1]| e1 s1|] eqn:Hloop;
      simpl in Hrun; [|done..].
    injection Hrun as <- <-. exists total, t1, s1.
    split; [exact Hest|]. split; [exact Hloop|].
    split; [by apply run_over_traj_exit, (traj_loop_exit_cause _ _ _ _ _ _ _ _ _ _ _ Hloop)|].
    split; [done|]. split.
    { intros Hp Hws.
      assert (Hp1 : preempted (set_moving true s) = false) by (by attrs).
      by rewrite (traj_loop_flag_down _ _ _ _ _ _ _ _ _ _ _ Hp1 Hws Hloop). }
    attrs. apply traj_loop_n in Hloop. attrs.
    by rewrite Hloop.
Qed.

(** A run that takes a step and leaves on the duration: one second of
    estimated duration on the wrist arm, whose linear speed is always
    zero. *)
Lemma dot_zeros (k : nat) (v : list R) : dot (repeat 0 k) v = 0.
Proof.
  unfold dot. revert v. induction k as [|k IH]; intros [|a v];
    cbn [repeat zip_with foldr]; try done.
  rewrite IH. lra.
Qed.

Lemma wrist_arm_uncapped (joints velocity : list R) :
  norm (take 3 (matvec (@jacob0 wrist_arm joints) velocity)) <= 0.2.
Proof.
  unfold matvec. cbn [jacob0 wrist_arm map take].
  change [0; 0; 0; 0; 0; 0] with (repeat 0 6). rewrite dot_zeros.
  rewrite (norm_by_square _ 0); [lra | lra |].
  cbn [sum_squares foldr]. lra.
Qed.

Lemma total_time_nudge : total_time nudge zeros6 = 1.
Proof.
  unfold total_time, nudge, zeros6, vsub, av_vel.
  cbn [zip_with map foldr].
  replace ((0 - 0) / 0.025) with 0 by lra.
  replace ((0.025 - 0) / 0.025) with 1 by lra.
  rewrite Rabs_R0, Rabs_R1.
  rewrite (Rmax_left 1 0) by lra.
  repeat rewrite (Rmax_right 0 1) by lra. reflexivity.
Qed.

Lemma nudge_not_over : ~ run_over nudge zeros6 (1 / 2) 0 slow_robot.
Proof.
  intros [Harr | [(T & HT & Hle) | Hp]].
  - specialize (Harr 5%nat 0.025 0 eq_refl eq_refl).
    replace (0.025 - 0) with 0.025 in Harr by lra.
    rewrite Rabs_pos_eq in Harr; lra.
  - rewrite (estimated_duration_unique _ _ _ _ HT
               (total_time_estimated nudge zeros6)), total_time_nudge in Hle.
    lra.
  - done.
Qed.

Lemma traj_move_exit_witness :
  0 < frequency slow_robot
  /\ ~ run_over nudge zeros6 (1 / 2) 0 slow_robot
  /\ exists s' : ROSRobot,
       @traj_move wrist_arm [zeros6; nudge] 0.2 [[]] slow_robot
       = Ret (true, s')
       /\ j_v s' = PyList (repeat 0 6)
       /\ moving s' = false
       /\ preempted s' = false.
Proof.
  assert (Hf : 0 < frequency slow_robot) by (simpl; lra).
  split; [exact Hf|]. split; [exact nudge_not_over|].
  destruct (@traj_move_exit wrist_arm [zeros6; nudge] 0.2 [[]] slow_robot Hf)
    as (_ & Hret & _ & Hexit).
  destruct Hret as (r & s' & Hrun).
  { right. right. split; [exact wrist_arm_uncapped|].
    intros T HT.
    rewrite (estimated_duration_unique _ _ _ _ HT
               (total_time_estimated nudge zeros6)), total_time_nudge.
    change (frequency slow_robot) with 2. cbn [length INR]. lra. }
  destruct (Hexit r s' Hrun)
    as (T & t_exit & s_exit & _ & _ & _ & _ & Htrue & Hjv & Hmv & Hp).
  assert (r = true) as ->.
  { apply Htrue; [reflexivity|]. constructor; [|constructor].
    intros Hin. by apply elem_of_nil in Hin. }
  exists s'. split; [exact Hrun|]. split; [exact Hjv|].
  split; [exact Hmv | exact Hp].
Defined.

(** The commanded output follows at the next tick: with no cartesian target
    left, a tick after a finished trajectory writes the zero list to the
    output. *)
Lemma tick_after_trajectory `{K : Kinematics} (dt : R) (s : ROSRobot) :
  readonly s = false -> py_any (e_v s) = false ->
  j_v s = PyList (repeat 0 (n s)) ->
  exists s' : ROSRobot, step dt s = Ret s' /\ qd s' = PyList (repeat 0 (n s)).
Proof.
  intros Hro Hev Hjv. unfold step. rewrite Hro. cbv zeta. attrs. rewrite Hev.
  unfold decay_joint. attrs. rewrite Hjv. cbn [as_list].
  rewrite py_any_zeros. eexists. split; [reflexivity|]. attrs. exact Hjv.
Qed.

(** A run whose goal is where the arm already is returns at once, with
    success. *)
Lemma traj_move_at_goal :
  exists s' : ROSRobot,
    @traj_move toy_arm [zeros6; zeros6] 0.2 [] idle_robot = Ret (true, s')
    /\ j_v s' = PyList zeros6.
Proof.
  unfold traj_move. cbv zeta. attrs.
  rewrite bool_decide_eq_false_2 by (simpl; lra).
  rewrite traj_loop_exit_now.
  - eexists. split; reflexivity.
  - left. unfold close_to_goal, vsub. cbn.
    replace (0 - 0) with 0 by lra. rewrite Rabs_R0.
    assert (Rltb 0 0.02 = true) as -> by (apply Rltb_true; lra). done.
Qed.

Lemma preempt_empties_list_target_witness :
  exists s' : ROSRobot,
    @traj_move toy_arm [zeros6; zeros6] 0.2 [] idle_robot = Ret (true, s')
    /\ j_v s' = PyList [0; 0; 0; 0; 0; 0]
    /\ j_v (preempt s') = PyList [].
Proof.
  destruct traj_move_at_goal as (s' & Hrun & Hjv).
  exists s'. split; [exact Hrun|]. split; [exact Hjv|].
  destruct (@preempt_empties_list_target toy_arm s')
    as (_ & _ & _ & _ & _ & Hafter).
  exact (proj1 (proj2 (Hafter _ _ _ _ _ Hrun))).
Defined.

Lemma total_time_to_home_aux :
  total_time home_aux zeros6 = 40.
Proof.
  unfold total_time, home_aux, zeros6, vsub, av_vel.
  cbn [zip_with map fold_right].
  replace ((0 - 0) / 0.025) with 0 by lra.
  replace ((1 - 0) / 0.025) with 40 by lra.
  rewrite Rabs_R0, (Rabs_pos_eq 40) by lra.
  rewrite (Rmax_left 40 0) by lra.
  repeat rewrite (Rmax_right 0 40) by lra. reflexivity.
Qed.

(** A run towards [home_aux] that is stopped during its first wait: one
    command is issued, the stop request zeroes it, the loop leaves on the
    flag, and the run returns failure with the flag cleared. *)
Lemma traj_move_stopped :
  exists s' : ROSRobot,
    @traj_move toy_arm [zeros6; home_aux] 0.2 [[EvPreempt]] idle_robot
    = Ret (false, s')
    /\ j_v s' = PyList zeros6 /\ moving s' = false /\ preempted s' = false.
Proof.
  unfold traj_move. cbv zeta. attrs.
  rewrite bool_decide_eq_false_2 by (simpl; lra).
  change (qfunc1 [zeros6; home_aux]) with home_aux.
  change (as_list (q idle_robot)) with zeros6.
  rewrite total_time_to_home_aux.
  rewrite traj_loop_unfold.
  assert (Rltb (0 + 1 / frequency idle_robot) 40 = true) as ->
    by (apply Rltb_true; simpl; lra).
  change (preempted (set_moving true idle_robot)) with false.
  cbn [andb negb].
  assert (close_to_goal home_aux (set_moving true idle_robot) = false) as ->.
  { unfold close_to_goal, home_aux, vsub. cbn [q set_moving idle_robot as_list zeros6 zip_with forallb].
    replace (0 - 0) with 0 by lra. replace (1 - 0) with 1 by lra.
    rewrite Rabs_R0, Rabs_R1.
    assert (Rltb 0 0.02 = true) as -> by (apply Rltb_true; lra).
    assert (Rltb 1 0.02 = false) as -> by (apply Rltb_false; lra). done. }
  assert ((py_int (40 * frequency idle_robot) =? 0)%Z = false) as ->.
  { apply Z.eqb_neq, py_int_positive. simpl. lra. }
  rewrite traj_loop_exit_now.
  - eexists. split; [reflexivity|]. done.
  - right. right. apply resume_preempts. constructor.
Qed.

(** * Further properties *)

(** ** The named pose store: reloads *)

Lemma load_fold_named (cfgs : list string) (s0 : ROSRobot) :
  named_poses
    (foldl (fun s config_name =>
              set_named_poses
                (load_file (disk s !! config_name) (named_poses s)) s)
           s0 cfgs)
  = foldl (fun acc c => load_file (disk s0 !! c) acc) (named_poses s0) cfgs.
Proof.
  revert s0. induction cfgs as [|c cfgs IH]; intros s0; [done|].
  cbn [foldl]. rewrite IH. by attrs.
Qed.

Lemma load_config_named (s : ROSRobot) :
  named_poses (load_config s)
  = load_file (disk s !! config_path s) (aux_layers s).
Proof.
  unfold load_config, aux_layers. cbv zeta.
  change (custom_configs (set_named_poses ∅ s)) with (custom_configs s).
  destruct (load_aux_fold (custom_configs s) (set_named_poses ∅ s))
    as (Hd & Hc & _).
  pose proof (load_fold_named (custom_configs s) (set_named_poses ∅ s)) as Hn.
  cbv zeta in Hd, Hc. attrs.
  set (s1 := foldl _ _ _) in *.
  rewrite Hd, Hc. case_bool_decide as Hex.
  - attrs. by rewrite Hn.
  - rewrite Hn.
    assert (disk s !! config_path s = None) as ->
      by (by apply eq_None_not_Some).
    done.
Qed.

(** A reload reads the files, the source list and the primary path, and
    nothing of the map it replaces. *)
Lemma load_config_ignores_store (m : poses) (s : ROSRobot) :
  load_config (set_named_poses m s) = load_config s.
Proof.
  rewrite (load_config_frame (set_named_poses m s)), (load_config_frame s).
  rewrite !load_config_named.
  apply ROSRobot_eq; reflexivity.
Qed.

(** X1.  Reloading twice is reloading once. *)
Theorem reload_is_idempotent (s : ROSRobot) :
  load_config (load_config s) = load_config s.
Proof.
  rewrite (load_config_frame s) at 1. apply load_config_ignores_store.
Qed.

Lemma load_file_from (file : option yaml) (named : poses) (name : string)
    (v : list R) :
  load_file file named !! name = Some v ->
  entries_of file !! name = Some v \/ named !! name = Some v.
Proof.
  rewrite load_file_lookup. unfold overlay.
  destruct (entries_of file !! name); intros H; [by left | by right].
Qed.

Lemma aux_fold_from (d : gmap string yaml) (cfgs : list string) (acc : poses)
    (name : string) (v : list R) :
  foldl (fun acc c => load_file (d !! c) acc) acc cfgs !! name = Some v ->
  acc !! name = Some v
  \/ exists c, c ∈ cfgs /\ entries_of (d !! c) !! name = Some v.
Proof.
  revert acc. induction cfgs as [|c cfgs IH]; intros acc; cbn [foldl].
  - by left.
  - intros H. apply IH in H as [H | (c' & Hin & H)].
    + apply load_file_from in H as [H | H]; [|by left].
      right. exists c. split; [constructor | done].
    + right. exists c'. split; [by constructor | done].
Qed.

(** X2.  A reload invents nothing: every entry of the reloaded store is an
    entry of the primary file or of a listed auxiliary file. *)
Theorem reload_entries_come_from_sources (s : ROSRobot) (name : string)
    (v : list R) :
  get name (load_config s) = Some v ->
  entries_of (disk s !! config_path s) !! name = Some v
  \/ exists c, c ∈ custom_configs s /\ entries_of (disk s !! c) !! name = Some v.
Proof.
  unfold get. rewrite load_config_named. intros H.
  apply load_file_from in H as [H | H]; [by left|].
  unfold aux_layers in H. apply aux_fold_from in H as [H | H]; [|by right].
  by rewrite lookup_empty in H.
Qed.

Lemma store_robot_home : get "home" (load_config files_robot) = Some zeros6.
Proof.
  unfold get. rewrite load_config_named. unfold aux_layers, files_robot. attrs.
  change (custom_configs idle_robot) with (@nil string).
  change (config_path idle_robot) with "armer.yaml"%string.
  cbn [foldl]. rewrite lookup_insert_ne, lookup_insert_eq by done.
  unfold load_file, primary_file, py_update.
  rewrite lookup_singleton_eq, (right_id_L ∅ (∪)).
  by rewrite lookup_singleton_eq.
Qed.

Lemma reload_entries_come_from_sources_witness :
  get "home" (load_config files_robot) = Some zeros6
  /\ (entries_of (disk files_robot !! config_path files_robot) !! "home"%string
      = Some zeros6
      \/ exists c, c ∈ custom_configs files_robot
                   /\ entries_of (disk files_robot !! c) !! "home"%string
                      = Some zeros6).
Proof.
  split; [exact store_robot_home|].
  exact (reload_entries_come_from_sources files_robot "home" zeros6
           store_robot_home).
Defined.

(** ** The named pose store: what is written and what comes back *)

(** X3.  Writing a category to the primary file and reading the file back
    gives that category as written; the other categories of the file and
    every other file are as before, and the in-memory store is not touched. *)
Theorem write_config_round_trip (key : string) (value : poses) (s : ROSRobot) :
  (disk (write_config key value s) !! config_path s)
    ≫= (fun doc => doc !! key) = Some value
  /\ (forall other : string, other <> key ->
        (disk (write_config key value s) !! config_path s)
          ≫= (fun doc => doc !! other)
        = (disk s !! config_path s) ≫= (fun doc => doc !! other))
  /\ (forall path : string, path <> config_path s ->
        disk (write_config key value s) !! path = disk s !! path)
  /\ named_poses (write_config key value s) = named_poses s.
Proof.
  unfold write_config. cbv zeta. attrs. split; [|split; [|split]].
  - rewrite lookup_insert_eq. simpl. by rewrite lookup_insert_eq.
  - intros other Hne. rewrite lookup_insert_eq. simpl.
    rewrite lookup_insert_ne by done.
    destruct (disk s !! config_path s); simpl; [done | by rewrite lookup_empty].
  - intros path Hne. by rewrite lookup_insert_ne.
  - done.
Qed.

Lemma write_config_round_trip_witness :
  ("gripper" <> "named_poses")%string
  /\ ("aux.yaml"%string <> config_path store_robot)
  /\ (disk (write_config "named_poses" ∅ store_robot) !! config_path store_robot)
       ≫= (fun doc => doc !! "gripper"%string)
     = (disk store_robot !! config_path store_robot)
         ≫= (fun doc => doc !! "gripper"%string)
  /\ disk (write_config "named_poses" ∅ store_robot) !! "aux.yaml"%string
     = disk store_robot !! "aux.yaml"%string.
Proof.
  assert (H1 : ("gripper" <> "named_poses")%string) by discriminate.
  assert (H2 : "aux.yaml"%string <> config_path store_robot).
  { destruct store_robot_files as (_ & _ & _ & ->). discriminate. }
  destruct (write_config_round_trip "named_poses" ∅ store_robot)
    as (_ & Hother & Hpath & _).
  split; [exact H1|]. split; [exact H2|].
  split; [exact (Hother _ H1) | exact (Hpath _ H2)].
Defined.

(** After a write of the store, the primary file holds the store, and the
    primary file is read last. *)
Lemma reload_after_write (m0 m : poses) (s : ROSRobot) (cfgs : list string)
    (name : string) (v : list R) :
  m !! name = Some v ->
  get name
    (load_config
       (set_custom_configs cfgs
          (set_named_poses m0 (write_config "named_poses" m s))))
  = Some v.
Proof.
  intros Hin. unfold get. rewrite load_config_named.
  unfold write_config. cbv zeta. attrs. rewrite lookup_insert_eq.
  unfold load_file, py_update. rewrite lookup_insert_eq.
  by apply lookup_union_Some_l.
Qed.

Lemma written_state_frame (s : ROSRobot) :
  set_custom_configs (custom_configs s) (set_named_poses (named_poses s) s) = s.
Proof. apply ROSRobot_eq; reflexivity. Qed.

(** X4.  An added pose survives a reload: after a successful add, every pose
    of the store, the new one included, is found again when the files are
    read anew. *)
Theorem add_survives_reload (req : AddNamedPoseRequest) (s s' : ROSRobot)
    (resp : AddNamedPoseResponse) (name : string) (v : list R) :
  add_named_pose_cb req s = Ret (resp, s') ->
  success resp = true ->
  get name s' = Some v ->
  get name (load_config s') = Some v.
Proof.
  intros Hrun Hok Hin.
  destruct (add_named_pose_success _ _ _ _ Hrun Hok) as (l & Hq & ->).
  rewrite <- (written_state_frame (write_config _ _ _)).
  apply reload_after_write. exact Hin.
Qed.

Lemma add_ready_runs :
  add_named_pose_cb add_ready idle_robot
  = Ret ({| success := true |},
         write_config "named_poses" (<["ready"%string := zeros6]> ∅)
           (set_named_poses (<["ready"%string := zeros6]> ∅) idle_robot)).
Proof.
  apply (add_named_pose_accepts add_ready idle_robot zeros6 eq_refl).
  left. apply lookup_empty.
Qed.

Lemma add_survives_reload_witness :
  exists s' : ROSRobot,
    add_named_pose_cb add_ready idle_robot = Ret ({| success := true |}, s')
    /\ get "ready" s' = Some zeros6
    /\ get "ready" (load_config s') = Some zeros6.
Proof.
  eexists. split; [exact add_ready_runs|].
  assert (Hin : get "ready"
                  (write_config "named_poses" (<["ready"%string := zeros6]> ∅)
                     (set_named_poses (<["ready"%string := zeros6]> ∅)
                        idle_robot)) = Some zeros6)
    by apply lookup_insert_eq.
  split; [exact Hin|].
  exact (add_survives_reload _ _ _ _ _ _ add_ready_runs eq_refl Hin).
Defined.

(** X5.  After a successful add the auxiliary sources are no longer needed
    for what the store holds: taking any source off the list keeps every pose
    of the store, because the add wrote the whole store to the primary
    file. *)
Theorem add_absorbs_auxiliary_sources (req : AddNamedPoseRequest)
    (s s' : ROSRobot) (resp : AddNamedPoseResponse) (path name : string)
    (v : list R) :
  add_named_pose_cb req s = Ret (resp, s') ->
  success resp = true ->
  get name s' = Some v ->
  get name (snd (remove_named_pose_config_cb path s')) = Some v.
Proof.
  intros Hrun Hok Hin. unfold remove_named_pose_config_cb.
  case_bool_decide; [|exact Hin]. cbn [snd].
  destruct (add_named_pose_success _ _ _ _ Hrun Hok) as (l & Hq & ->).
  set (w := write_config _ _ _) in *.
  assert (E : set_custom_configs (py_remove path (custom_configs w)) w
              = set_custom_configs (py_remove path (custom_configs w))
                  (set_named_poses (named_poses w) w))
    by (apply ROSRobot_eq; reflexivity).
  rewrite E. apply reload_after_write. exact Hin.
Qed.

Lemma layered_robot_q : q layered_robot = NdArray zeros6.
Proof.
  unfold layered_robot, add_named_pose_config_cb. cbv zeta. cbn [snd].
  rewrite load_config_frame. attrs. unfold store_robot.
  by rewrite load_config_frame.
Qed.

Lemma add_absorbs_auxiliary_sources_witness :
  exists s' : ROSRobot,
    add_named_pose_cb add_ready_over layered_robot
    = Ret ({| success := true |}, s')
    /\ get "ready" s' = Some zeros6
    /\ get "ready" (snd (remove_named_pose_config_cb "aux.yaml" s'))
       = Some zeros6.
Proof.
  assert (Hrun := add_named_pose_accepts add_ready_over layered_robot zeros6
                    layered_robot_q (or_intror eq_refl)).
  eexists. split; [exact Hrun|].
  assert (Hin : get "ready"
                  (write_config "named_poses"
                     (<["ready"%string := zeros6]> (named_poses layered_robot))
                     (set_named_poses
                        (<["ready"%string := zeros6]> (named_poses layered_robot))
                        layered_robot)) = Some zeros6)
    by apply lookup_insert_eq.
  split; [exact Hin|].
  exact (add_absorbs_auxiliary_sources _ _ _ _ "aux.yaml" _ _ Hrun eq_refl Hin).
Defined.

(** ** The named pose store: remove *)

Lemma remove_named_pose_accepts (req : RemoveNamedPoseRequest) (s : ROSRobot)
    (v : list R) :
  named_poses s !! rm_pose_name req = Some v ->
  remove_named_pose_cb req s
  = Ret ({| success := true |},
         write_config "named_poses" (delete (rm_pose_name req) (named_poses s))
           (set_named_poses (delete (rm_pose_name req) (named_poses s)) s)).
Proof.
  intros Hin. unfold remove_named_pose_cb. rewrite Hin.
  by rewrite bool_decide_eq_true_2 by eauto.
Qed.

(** X6.  Removing a stored pose succeeds whatever the [overwrite] flag: the
    name is gone from the store and from the primary file, every other pose
    is kept, and the primary file holds exactly the store. *)
Theorem remove_named_pose_removes (req : RemoveNamedPoseRequest) (s : ROSRobot) :
  is_Some (named_poses s !! rm_pose_name req) ->
  exists s' : ROSRobot,
    remove_named_pose_cb req s = Ret ({| success := true |}, s')
    /\ get (rm_pose_name req) s' = None
    /\ (forall other : string, other <> rm_pose_name req ->
          get other s' = get other s)
    /\ persisted s' = named_poses s'.
Proof.
  intros [v Hin]. eexists.
  split; [by apply (remove_named_pose_accepts _ _ v)|].
  split; [|split].
  - unfold get, write_config. cbv zeta. attrs. apply lookup_delete_eq.
  - intros other Hne. unfold get, write_config. cbv zeta. attrs.
    by apply lookup_delete_ne.
  - rewrite write_config_persisted. unfold write_config. cbv zeta. by attrs.
Qed.

Lemma layered_robot_home : get "home" layered_robot = Some zeros6.
Proof.
  destruct store_robot_files as (Haux & Hprim & Hcfgs & Hpath).
  unfold layered_robot, add_named_pose_config_cb. cbv zeta. cbn [snd].
  unfold get. rewrite load_config_named. attrs. rewrite Hpath, Hprim.
  unfold load_file, primary_file, py_update.
  rewrite lookup_singleton_eq. apply lookup_union_Some_l.
  apply lookup_singleton_eq.
Qed.

Lemma remove_named_pose_removes_witness :
  is_Some (named_poses layered_robot !! rm_pose_name remove_home)
  /\ exists s' : ROSRobot,
       remove_named_pose_cb remove_home layered_robot
       = Ret ({| success := true |}, s')
       /\ get "home" s' = None.
Proof.
  assert (H : is_Some (named_poses layered_robot !! rm_pose_name remove_home))
    by (exists zeros6; exact layered_robot_home).
  split; [exact H|].
  destruct (remove_named_pose_removes remove_home layered_robot H)
    as (s' & Hrun & Hgone & _).
  exists s'. split; [exact Hrun | exact Hgone].
Defined.

Lemma aux_fold_defines (d : gmap string yaml) (cfgs : list string)
    (acc : poses) (name c : string) :
  c ∈ cfgs -> is_Some (entries_of (d !! c) !! name) ->
  is_Some (foldl (fun acc c => load_file (d !! c) acc) acc cfgs !! name).
Proof.
  intros Hin Hdef.
  assert (Hkeep : forall cfgs acc,
            is_Some (acc !! name) ->
            is_Some (foldl (fun acc c => load_file (d !! c) acc) acc cfgs
                     !! name)).
  { clear. induction cfgs as [|c cfgs IH]; intros acc Hacc; [done|].
    cbn [foldl]. apply IH. rewrite load_file_lookup. unfold overlay.
    by destruct (entries_of (d !! c) !! name). }
  revert acc. induction cfgs as [|c' cfgs IH]; intros acc.
  - by apply elem_of_nil in Hin.
  - cbn [foldl]. apply elem_of_cons in Hin as [-> | Hin].
    + apply Hkeep. rewrite load_file_lookup. unfold overlay.
      destruct Hdef as [w ->]. eauto.
    + by apply IH.
Qed.

(** X7.  A remove does not reach the auxiliary files: when a listed
    auxiliary source defines the removed name, the next reload brings the
    pose back. *)
Theorem removed_pose_returns_from_auxiliary (req : RemoveNamedPoseRequest)
    (s s' : ROSRobot) (resp : AddNamedPoseResponse) (c : string) :
  remove_named_pose_cb req s = Ret (resp, s') ->
  c ∈ custom_configs s ->
  c <> config_path s ->
  is_Some (entries_of (disk s !! c) !! rm_pose_name req) ->
  is_Some (get (rm_pose_name req) (load_config s')).
Proof.
  intros Hrun Hin Hne Hdef.
  assert (Hs' : custom_configs s' = custom_configs s
                /\ disk s' !! c = disk s !! c).
  { unfold remove_named_pose_cb in Hrun.
    destruct (negb _ && negb _); [by injection Hrun as <- <-|].
    destruct (named_poses s !! rm_pose_name req); [|done].
    injection Hrun as <- <-. unfold write_config. cbv zeta. attrs.
    by rewrite lookup_insert_ne. }
  destruct Hs' as [Hcfgs Hdisk].
  unfold get. rewrite load_config_named, load_file_lookup. unfold overlay.
  destruct (entries_of (disk s' !! config_path s') !! rm_pose_name req)
    as [w|]; [by exists w|].
  unfold aux_layers. rewrite Hcfgs.
  apply (aux_fold_defines _ _ _ _ c); [done | by rewrite Hdisk].
Qed.

Lemma layered_robot_sources :
  custom_configs layered_robot = ["aux.yaml"%string]
  /\ config_path layered_robot = "armer.yaml"%string
  /\ disk layered_robot !! "aux.yaml"%string = Some aux_file.
Proof.
  destruct store_robot_files as (Haux & Hprim & Hcfgs & Hpath).
  unfold layered_robot, add_named_pose_config_cb. cbv zeta. cbn [snd].
  rewrite load_config_frame. attrs. by rewrite Hcfgs, Hpath, Haux.
Qed.

Lemma removed_pose_returns_from_auxiliary_witness :
  exists s' : ROSRobot,
    remove_named_pose_cb remove_home layered_robot
    = Ret ({| success := true |}, s')
    /\ is_Some (get "home" (load_config s')).
Proof.
  destruct layered_robot_sources as (Hcfgs & Hpath & Haux).
  assert (Hrun := remove_named_pose_accepts remove_home layered_robot zeros6
                    layered_robot_home).
  eexists. split; [exact Hrun|].
  apply (removed_pose_returns_from_auxiliary remove_home layered_robot _ _
           "aux.yaml" Hrun).
  - rewrite Hcfgs. constructor.
  - rewrite Hpath. discriminate.
  - rewrite Haux. exists home_aux. unfold entries_of, load_file, aux_file, py_update.
    rewrite lookup_singleton_eq, (right_id_L ∅ (∪)). apply lookup_singleton_eq.
Defined.

(** X8.  Adding a pose under a fresh name and removing it again gives back
    the store as it was; the primary file then holds that store. *)
Theorem add_then_remove_restores (name : string) (ov ov' : bool)
    (l : list R) (s : ROSRobot) :
  named_poses s !! name = None ->
  q s = NdArray l ->
  exists s1 s2 : ROSRobot,
    add_named_pose_cb {| add_pose_name := name; add_overwrite := ov |} s
    = Ret ({| success := true |}, s1)
    /\ remove_named_pose_cb {| rm_pose_name := name; rm_overwrite := ov' |} s1
       = Ret ({| success := true |}, s2)
    /\ named_poses s2 = named_poses s
    /\ persisted s2 = named_poses s.
Proof.
  intros Hnone Hq. eexists _, _. split; [|split].
  - apply (add_named_pose_accepts _ s l Hq). by left.
  - apply (remove_named_pose_accepts _ _ l).
    unfold write_config. cbv zeta. attrs. apply lookup_insert_eq.
  - assert (E : delete name (<[name:=l]> (named_poses s)) = named_poses s)
      by (by apply delete_insert_id).
    split.
    + unfold write_config. cbv zeta. attrs. exact E.
    + rewrite write_config_persisted. unfold write_config. cbv zeta. attrs.
      exact E.
Qed.

Lemma add_then_remove_restores_witness :
  named_poses idle_robot !! "ready"%string = None
  /\ q idle_robot = NdArray zeros6
  /\ exists s1 s2 : ROSRobot,
       add_named_pose_cb add_ready idle_robot = Ret ({| success := true |}, s1)
       /\ remove_named_pose_cb remove_ready s1 = Ret ({| success := true |}, s2)
       /\ named_poses s2 = named_poses idle_robot.
Proof.
  assert (H1 : named_poses idle_robot !! "ready"%string = None)
    by apply lookup_empty.
  split; [exact H1|]. split; [reflexivity|].
  destruct (add_then_remove_restores "ready" false false zeros6 idle_robot
              H1 eq_refl) as (s1 & s2 & Ha & Hr & Hn & _).
  exists s1, s2. split; [exact Ha|]. split; [exact Hr | exact Hn].
Defined.

(** ** The list of auxiliary sources *)

Lemma py_remove_last (path : string) (l : list string) :
  path ∉ l -> py_remove path (l ++ [path]) = l.
Proof.
  induction l as [|y l IH]; intros Hnot; simpl.
  - by rewrite bool_decide_eq_true_2.
  - apply not_elem_of_cons in Hnot as [Hne Hnot].
    rewrite bool_decide_eq_false_2 by done. by rewrite IH.
Qed.

(** X9.  Adding an auxiliary source that was not listed and removing it
    again leaves the driver as a plain reload would: the list of sources is
    the old one and the store is what the remaining files give. *)
Theorem add_then_remove_source_restores (path : string) (s : ROSRobot) :
  path ∉ custom_configs s ->
  snd (remove_named_pose_config_cb path
         (snd (add_named_pose_config_cb path s)))
  = load_config s.
Proof.
  intros Hnot. unfold add_named_pose_config_cb. cbv zeta. cbn [snd].
  set (s1 := load_config _).
  assert (Hs1 : s1 = set_named_poses (named_poses s1)
                       (set_custom_configs (custom_configs s ++ [path]) s))
    by apply load_config_frame.
  unfold remove_named_pose_config_cb.
  assert (Hcfg : custom_configs s1 = custom_configs s ++ [path])
    by (by rewrite Hs1).
  rewrite Hcfg. rewrite bool_decide_eq_true_2 by set_solver.
  cbn [snd]. rewrite py_remove_last by done.
  assert (E : set_custom_configs (custom_configs s) s1
              = set_named_poses (named_poses s1) s).
  { rewrite Hs1 at 1. apply ROSRobot_eq; reflexivity. }
  rewrite E. apply load_config_ignores_store.
Qed.

Lemma add_then_remove_source_restores_witness :
  ("aux.yaml"%string ∉ custom_configs store_robot)
  /\ snd (remove_named_pose_config_cb "aux.yaml"
            (snd (add_named_pose_config_cb "aux.yaml" store_robot)))
     = load_config store_robot.
Proof.
  assert (H : "aux.yaml"%string ∉ custom_configs store_robot).
  { destruct store_robot_files as (_ & _ & -> & _). apply not_elem_of_nil. }
  split; [exact H|].
  exact (add_then_remove_source_restores "aux.yaml" store_robot H).
Defined.

(** X10.  An auxiliary source that cannot be read is listed all the same and
    contributes nothing: the store is what a reload without it gives. *)
Theorem unreadable_source_is_skipped (path : string) (s : ROSRobot) :
  disk s !! path = None ->
  let s' := snd (add_named_pose_config_cb path s) in
  get_named_pose_configs_cb s' = custom_configs s ++ [path]
  /\ named_poses s' = named_poses (load_config s).
Proof.
  intros Hnone s'. subst s'. unfold add_named_pose_config_cb. cbv zeta.
  cbn [snd]. split.
  - unfold get_named_pose_configs_cb. by rewrite load_config_frame.
  - rewrite !load_config_named. unfold aux_layers. attrs.
    rewrite foldl_app. cbn [foldl]. by rewrite Hnone.
Qed.

Lemma unreadable_source_is_skipped_witness :
  disk store_robot !! "lost.yaml"%string = None
  /\ named_poses (snd (add_named_pose_config_cb "lost.yaml" store_robot))
     = named_poses (load_config store_robot).
Proof.
  assert (H : disk store_robot !! "lost.yaml"%string = None).
  { unfold store_robot. rewrite load_config_frame. attrs.
    rewrite !lookup_insert_ne by done. apply lookup_empty. }
  split; [exact H|].
  exact (proj2 (unreadable_source_is_skipped "lost.yaml" store_robot H)).
Defined.

(** ** Velocity commands and the tick *)

Lemma py_any_vscale_zero (l : list R) : py_any (vscale 0 l) = false.
Proof.
  induction l as [|a l IH]; simpl; [done|]. rewrite IH.
  assert (Rneqb (a * 0) 0 = false) as -> by (apply Rneqb_false; lra). done.
Qed.


(** A tick of a driver that is not read-only, with the two blocks named. *)
Lemma step_blocks `{K : Kinematics} (dt : R) (s : ROSRobot) :
  readonly s = false ->
  step dt s
  = (s1 ← decay_joint (clock s)
            (if py_any (e_v s)
             then track_cartesian dt (clock s) (set_state (get_state s) s)
             else set_state (get_state s) s);
     Ret (send (publish_state (state s1))
            (set_last_tick (clock s) (set_qd (j_v s1) s1)))).
Proof. intros Hro. unfold step. by rewrite Hro. Qed.

(** X11.  A joint velocity command reaches the output unchanged at the next
    tick, provided no cartesian target is active and the tick comes within
    100 ms of the command. *)
Theorem joint_velocity_passes_through `{K : Kinematics} (msg : JointVelocity)
    (now dt : R) (s : ROSRobot) :
  readonly s = false ->
  moving s = true \/ py_any (e_v s) = false ->
  now - clock s <= 0.1 ->
  exists s' : ROSRobot,
    step dt (set_clock now (joint_velocity_cb msg s)) = Ret s'
    /\ j_v s' = NdArray (jv_joints msg)
    /\ qd s' = NdArray (jv_joints msg).
Proof.
  intros Hro Hev Hnow. unfold joint_velocity_cb. cbv zeta.
  set (s0 := if moving s then preempt s else s).
  assert (H0 : readonly s0 = false /\ clock s0 = clock s
               /\ py_any (e_v s0) = false).
  { subst s0. destruct (moving s); [|by destruct Hev].
    split; [done|]. split; [done|]. apply py_any_vscale_zero. }
  destruct H0 as (Hro0 & Hc0 & Hev0).
  rewrite step_blocks by (attrs; exact Hro0). attrs. rewrite Hev0.
  unfold decay_joint, stale. attrs. cbn [as_list]. rewrite Hc0.
  assert (Rgtb (now - clock s) 0.1 = false) as ->.
  { unfold Rgtb. destruct (Rgt_dec _ _); [lra | done]. }
  destruct (py_any (jv_joints msg)); eexists; (split; [reflexivity|]);
    by attrs.
Qed.

Lemma joint_velocity_passes_through_witness :
  readonly idle_robot = false
  /\ (moving idle_robot = true \/ py_any (e_v idle_robot) = false)
  /\ 0.05 - clock idle_robot <= 0.1
  /\ exists s' : ROSRobot,
       @step toy_arm 0.01 (set_clock 0.05 (joint_velocity_cb creep idle_robot))
       = Ret s'
       /\ qd s' = NdArray [0; -0.1; 0; 0; 0; 0].
Proof.
  assert (H2 : moving idle_robot = true \/ py_any (e_v idle_robot) = false).
  { right. change (e_v idle_robot) with (repeat 0 6). apply py_any_zeros. }
  assert (H3 : 0.05 - clock idle_robot <= 0.1) by (simpl; lra).
  split; [reflexivity|]. split; [exact H2|]. split; [exact H3|].
  destruct (@joint_velocity_passes_through toy_arm creep 0.05 0.01 idle_robot
              eq_refl H2 H3) as (s' & Hrun & _ & Hqd).
  exists s'. split; [exact Hrun | exact Hqd].
Defined.

Lemma track_cartesian_forgets_joint_target `{K : Kinematics} (dt t : R)
    (v : pyvec) (s : ROSRobot) :
  track_cartesian dt t (set_j_v v s) = track_cartesian dt t s.
Proof.
  unfold track_cartesian, stale. cbv zeta. attrs.
  destruct (Rgtb (t - last_update s) 0.1); apply ROSRobot_eq; reflexivity.
Qed.

(** X12.  While a cartesian target is active the tick recomputes the joint
    target from it: a joint velocity command sent just before the tick has no
    effect on what the tick leaves behind. *)
Theorem cartesian_target_overrides_joint_velocity `{K : Kinematics}
    (msg1 msg2 : JointVelocity) (now dt : R) (s : ROSRobot) :
  readonly s = false ->
  moving s = false ->
  py_any (e_v s) = true ->
  step dt (set_clock now (joint_velocity_cb msg1 s))
  = step dt (set_clock now (joint_velocity_cb msg2 s)).
Proof.
  intros Hro Hmv Hev.
  assert (Hone : forall msg,
            step dt (set_clock now (joint_velocity_cb msg s))
            = (s1 ← decay_joint now
                      (track_cartesian dt now
                         (set_state (get_state (set_clock now s))
                            (set_clock now (set_last_update (clock s) s))));
               Ret (send (publish_state (state s1))
                      (set_last_tick now (set_qd (j_v s1) s1))))).
  { intros msg. unfold joint_velocity_cb. cbv zeta. rewrite Hmv.
    rewrite step_blocks by (attrs; exact Hro). attrs. rewrite Hev.
    set (a := set_state _ _).
    assert (E : a = set_j_v (NdArray (jv_joints msg))
                      (set_state (get_state (set_clock now s))
                         (set_clock now (set_last_update (clock s) s))))
      by (subst a; apply ROSRobot_eq; reflexivity).
    by rewrite E, track_cartesian_forgets_joint_target. }
  by rewrite (Hone msg1), (Hone msg2).
Qed.

Lemma stale_cartesian_robot_active : py_any (e_v stale_cartesian_robot) = true.
Proof.
  change (e_v stale_cartesian_robot) with [1; 0; 0; 0; 0; 0]. cbn [py_any existsb].
  assert (Rneqb 1 0 = true) as ->; [|done].
  unfold Rneqb. destruct (Req_dec_T 1 0); [lra | done].
Qed.

Lemma cartesian_target_overrides_joint_velocity_witness :
  readonly stale_cartesian_robot = false
  /\ moving stale_cartesian_robot = false
  /\ py_any (e_v stale_cartesian_robot) = true
  /\ @step toy_arm 0.01 (set_clock 1 (joint_velocity_cb creep stale_cartesian_robot))
     = @step toy_arm 0.01 (set_clock 1 (joint_velocity_cb halt stale_cartesian_robot)).
Proof.
  split; [reflexivity|]. split; [reflexivity|].
  split; [exact stale_cartesian_robot_active|].
  exact (@cartesian_target_overrides_joint_velocity toy_arm creep halt 1 0.01
           stale_cartesian_robot eq_refl eq_refl stale_cartesian_robot_active).
Defined.

(** ** [__vel_move]: the expected pose is anchored when the twist changes *)

Lemma py_any_vsub_same (a : list R) : py_any (vsub a a) = false.
Proof.
  induction a as [|r a IH]; simpl; [done|]. rewrite IH.
  assert (Rneqb (r - r) 0 = false) as -> by (apply Rneqb_false; lra). done.
Qed.

Lemma py_any_vsub_differ (a b : list R) :
  length a = length b -> a <> b -> py_any (vsub a b) = true.
Proof.
  revert b. induction a as [|r a IH]; intros [|r' b] Hlen Hne; try done.
  simpl. destruct (Req_dec_T r r') as [->|Hr].
  - rewrite IH; [apply orb_true_r | by injection Hlen | congruence].
  - assert (Rneqb (r - r') 0 = true) as ->; [|done].
    unfold Rneqb. destruct (Req_dec_T (r - r') 0); [lra | done].
Qed.

(** X13.  [__vel_move] adopts the commanded twist and stamps the update.  A
    repeat of the twist already held leaves the expected end-effector pose
    where the tick has integrated it to; a different twist anchors the
    expected pose at the pose the forward kinematics gives now. *)
Theorem vel_move_anchors_on_change `{K : Kinematics} (ts : TwistStamped)
    (s : ROSRobot) :
  e_v (vel_move ts s) = twist_list (twist ts)
  /\ last_update (vel_move ts s) = clock s
  /\ (e_v s = twist_list (twist ts) -> e_p (vel_move ts s) = e_p s)
  /\ (length (e_v s) = 6%nat -> e_v s <> twist_list (twist ts) ->
      e_p (vel_move ts s) = fkine (as_list (q s))).
Proof.
  unfold vel_move. cbv zeta. fold (twist_list (twist ts)).
  set (s0 := if _ && _ then _ else _).
  assert (E0 : e_v s0 = e_v s /\ e_p s0 = e_p s /\ q s0 = q s
               /\ clock s0 = clock s)
    by (subst s0; by destruct (_ && _)).
  destruct E0 as (Hev & Hep & Hq & Hc). rewrite Hev.
  split; [by attrs|]. split.
  { attrs. by destruct (py_any _). }
  split.
  - intros ->. rewrite py_any_vsub_same. by attrs.
  - intros Hlen Hne. rewrite py_any_vsub_differ; [by attrs; rewrite Hq | | done].
    by rewrite Hlen.
Qed.

Lemma vel_move_anchors_on_change_witness :
  length (e_v idle_robot) = 6%nat
  /\ e_v idle_robot <> twist_list (twist push_x)
  /\ e_p (@vel_move toy_arm push_x idle_robot)
     = @fkine toy_arm (as_list (q idle_robot)).
Proof.
  assert (H : e_v idle_robot <> twist_list (twist push_x)).
  { intros E. injection E as E. lra. }
  split; [reflexivity|]. split; [exact H|].
  destruct (@vel_move_anchors_on_change toy_arm push_x idle_robot)
    as (_ & _ & _ & Hchange).
  exact (Hchange eq_refl H).
Defined.

(** ** The tick after a stop, and the decay over ticks *)

Lemma tick_without_targets `{K : Kinematics} (dt : R) (s : ROSRobot) :
  readonly s = false ->
  py_any (e_v s) = false ->
  py_any (as_list (j_v s)) = false ->
  exists s' : ROSRobot,
    step dt s = Ret s' /\ e_v s' = e_v s /\ j_v s' = j_v s /\ qd s' = j_v s.
Proof.
  intros Hro Hev Hjv. rewrite step_blocks, Hev by exact Hro.
  unfold decay_joint. attrs. rewrite Hjv.
  eexists. split; [reflexivity|]. by attrs.
Qed.




Lemma sum_abs_nonneg (l : list R) : 0 <= sum_abs l.
Proof.
  induction l as [|a l IH]; simpl; [lra|].
  pose proof (Rabs_pos a). lra.
Qed.

Lemma sum_abs_vscale (c : R) (l : list R) :
  sum_abs (vscale c l) = Rabs c * sum_abs l.
Proof.
  induction l as [|a l IH]; simpl; [lra|].
  rewrite IH, Rabs_mult. lra.
Qed.

Lemma sum_abs_zero_map (l : list R) : sum_abs (map (fun _ => 0) l) = 0.
Proof.
  induction l as [|a l IH]; simpl; [done|]. rewrite IH, Rabs_R0. lra.
Qed.

Lemma staleness_decay_sum (b : bool) (l : list R) :
  sum_abs (staleness_decay b l) <= sum_abs l.
Proof.
  pose proof (sum_abs_nonneg l). unfold staleness_decay.
  destruct b; [|lra]. destruct (Rgeb _ _).
  - rewrite sum_abs_vscale, Rabs_pos_eq by lra. lra.
  - rewrite sum_abs_zero_map. lra.
Qed.

Lemma track_cartesian_readonly `{K : Kinematics} (dt t : R) (s : ROSRobot) :
  readonly (track_cartesian dt t s) = readonly s.
Proof. unfold track_cartesian. cbv zeta. attrs. by destruct (stale t s). Qed.

Lemma track_cartesian_clock `{K : Kinematics} (dt t : R) (s : ROSRobot) :
  clock (track_cartesian dt t s) = clock s.
Proof. unfold track_cartesian. cbv zeta. attrs. by destruct (stale t s). Qed.

Lemma track_cartesian_state `{K : Kinematics} (dt t : R) (s : ROSRobot) :
  state (track_cartesian dt t s) = state s.
Proof. unfold track_cartesian. cbv zeta. attrs. by destruct (stale t s). Qed.

(** What a tick does to the cartesian target and to what the decay reads,
    whether it returns or raises. *)
Lemma tick_frame `{K : Kinematics} (dt : R) (s : ROSRobot) :
  readonly (after (step dt s) s) = readonly s
  /\ clock (after (step dt s) s) = clock s
  /\ last_update (after (step dt s) s) = last_update s
  /\ (readonly s = false ->
      e_v (after (step dt s) s)
      = staleness_decay (stale (clock s) s) (e_v s)
      /\ state (after (step dt s) s) = get_state s).
Proof.
  destruct (readonly s) eqn:Hro.
  { unfold step. rewrite Hro. cbn [after]. by rewrite Hro. }
  rewrite step_blocks by exact Hro.
  set (s1 := if py_any (e_v s) then _ else _).
  assert (H1 : readonly s1 = false /\ clock s1 = clock s
               /\ last_update s1 = last_update s
               /\ e_v s1 = staleness_decay (stale (clock s) s) (e_v s)
               /\ state s1 = get_state s).
  { subst s1. destruct (py_any (e_v s)) eqn:Hev.
    - rewrite track_cartesian_e_v, track_cartesian_last_update.
      by rewrite track_cartesian_readonly, track_cartesian_clock,
        track_cartesian_state.
    - attrs. by rewrite (staleness_decay_zero _ _ Hev). }
  destruct H1 as (H1 & H2 & H3 & H4 & H5). clearbody s1.
  assert (H : exists v, after (decay_joint (clock s) s1) s1 = set_j_v v s1
                        /\ (decay_joint (clock s) s1
                            = Ret (set_j_v v s1)
                            \/ decay_joint (clock s) s1 = Raise TypeError s1)).
  { unfold decay_joint.
    assert (Hid : s1 = set_j_v (j_v s1) s1) by (apply ROSRobot_eq; reflexivity).
    destruct (py_any (as_list (j_v s1)));
      [|exists (j_v s1); split; [exact Hid | left; by f_equal]].
    destruct (stale (clock s) s1);
      [|exists (j_v s1); split; [exact Hid | left; by f_equal]].
    destruct (Rgeb _ _); [|by eexists; split; [reflexivity | left]].
    destruct (imul_float 0.9 (j_v s1)).
    - by eexists; split; [reflexivity | left].
    - exists (j_v s1). split; [exact Hid | by right]. }
  destruct H as (v & _ & [-> | ->]); cbn [mbind run_bind after]; attrs; auto.
Qed.

(** X15.  A tick never enlarges a velocity target: the sum of absolute
    values of the cartesian target does not grow, and without a cartesian
    target neither does that of the joint target. *)
Theorem tick_never_enlarges_targets `{K : Kinematics} (dt : R)
    (s s' : ROSRobot) :
  step dt s = Ret s' ->
  sum_abs (e_v s') <= sum_abs (e_v s)
  /\ (py_any (e_v s) = false ->
      sum_abs (as_list (j_v s')) <= sum_abs (as_list (j_v s))).
Proof.
  intros Hrun. destruct (readonly s) eqn:Hro.
  { unfold step in Hrun. rewrite Hro in Hrun. injection Hrun as <-. lra. }
  split.
  - destruct (tick_frame dt s) as (_ & _ & _ & He). rewrite Hrun in He.
    cbn [after] in He. destruct (He Hro) as [E _]. rewrite E.
    apply staleness_decay_sum.
  - intros Hev. rewrite step_blocks, Hev in Hrun by exact Hro.
    unfold decay_joint in Hrun. attrs.
    pose proof (sum_abs_nonneg (as_list (j_v s))) as Hnn.
    destruct (py_any (as_list (j_v s)));
      [|injection Hrun as <-; attrs; lra].
    destruct (stale _ _); [|injection Hrun as <-; attrs; lra].
    destruct (Rgeb _ _).
    + destruct (j_v s) as [l|l]; [|done]. injection Hrun as <-. attrs.
      cbn [as_list] in *. rewrite sum_abs_vscale, Rabs_pos_eq by lra. lra.
    + injection Hrun as <-. attrs.
      destruct (j_v s) as [l|l]; cbn [imul_zero as_list] in *.
      * rewrite sum_abs_vscale, Rabs_R0. lra.
      * simpl. lra.
Qed.

Lemma idle_robot_quiet :
  py_any (e_v idle_robot) = false /\ py_any (as_list (j_v idle_robot)) = false.
Proof.
  change (e_v idle_robot) with (repeat 0 6).
  change (as_list (j_v idle_robot)) with (repeat 0 6).
  split; apply py_any_zeros.
Qed.

(** A tick on a scalable joint target returns, and what it leaves of the
    two targets is the decay of what it found. *)
Lemma step_decays `{K : Kinematics} (dt : R) (s : ROSRobot) :
  readonly s = false ->
  scalable (j_v s) ->
  exists s' : ROSRobot,
    step dt s = Ret s'
    /\ e_v s' = decay_rule (clock s - last_update s) (e_v s)
    /\ (py_any (e_v s) = false ->
        as_list (j_v s')
        = decay_rule (clock s - last_update s) (as_list (j_v s))).
Proof.
  intros Hro Hsc. rewrite <- !staleness_decay_rule.
  rewrite step_blocks by exact Hro.
  set (s0 := set_state (get_state s) s).
  destruct (py_any (e_v s)) eqn:Hev.
  - destruct (decay_joint_spec (clock s) (track_cartesian dt (clock s) s0))
      as (v & -> & Hv); [apply track_cartesian_scalable|].
    eexists. split; [reflexivity|]. attrs.
    split; [by rewrite track_cartesian_e_v | done].
  - destruct (decay_joint_spec (clock s) s0) as (v & -> & Hv); [exact Hsc|].
    eexists. split; [reflexivity|]. attrs.
    split; [symmetry; by apply staleness_decay_zero | by intros _].
Qed.

Lemma tick_never_enlarges_targets_witness :
  (exists s' : ROSRobot,
     @step toy_arm 0.01 stale_cartesian_robot = Ret s'
     /\ e_v stale_cartesian_robot = [1; 0; 0; 0; 0; 0]
     /\ e_v s' = [0.9; 0; 0; 0; 0; 0]
     /\ sum_abs (e_v s') <= sum_abs (e_v stale_cartesian_robot))
  /\ (exists s' : ROSRobot,
        @step toy_arm 0.01 coasting_robot = Ret s'
        /\ as_list (j_v coasting_robot) = [0; -0.1; 0; 0; 0; 0]
        /\ as_list (j_v s') = [0; -0.09; 0; 0; 0; 0]
        /\ sum_abs (as_list (j_v s'))
           <= sum_abs (as_list (j_v coasting_robot))).
Proof.
  split.
  - destruct (@step_decays toy_arm 0.01 stale_cartesian_robot eq_refl I)
      as (s' & Hrun & He & _).
    exists s'. split; [exact Hrun|]. split; [reflexivity|]. split.
    + rewrite He.
      change (clock stale_cartesian_robot - last_update stale_cartesian_robot)
        with (1 - 0).
      change (e_v stale_cartesian_robot) with [1; 0; 0; 0; 0; 0].
      rewrite decay_rule_stale;
        [cbn [map]; vec_eq | lra | unfold magnitude; cbn [map foldr]; abs_lra].
    + exact (proj1 (@tick_never_enlarges_targets toy_arm 0.01
                      stale_cartesian_robot s' Hrun)).
  - assert (Hev : py_any (e_v coasting_robot) = false)
      by apply (py_any_zeros 6).
    destruct (@step_decays toy_arm 0.01 coasting_robot eq_refl I)
      as (s' & Hrun & _ & Hj).
    exists s'. split; [exact Hrun|]. split; [reflexivity|]. split.
    + rewrite (Hj Hev).
      change (clock coasting_robot - last_update coasting_robot) with (1 - 0).
      change (as_list (j_v coasting_robot)) with [0; -0.1; 0; 0; 0; 0].
      rewrite decay_rule_stale;
        [cbn [map]; vec_eq | lra | unfold magnitude; cbn [map foldr]; abs_lra].
    + exact (proj2 (@tick_never_enlarges_targets toy_arm 0.01
                      coasting_robot s' Hrun) Hev).
Defined.

Lemma all_zero_map (l : list R) : Forall (fun v => v = 0) (map (fun _ => 0) l).
Proof. induction l; simpl; constructor; auto. Qed.

Lemma stale_ticks_die_out `{K : Kinematics} (dt : R) (N : nat) (s : ROSRobot) :
  readonly s = false ->
  stale (clock s) s = true ->
  0.9 ^ N * sum_abs (e_v s) < 0.0001 ->
  exists k : nat,
    (k <= S N)%nat
    /\ Forall (fun v => v = 0) (e_v (resume (repeat (EvStep dt) k) s)).
Proof.
  revert s. induction N as [|N IH]; intros s Hro Hst Hsum.
  all: destruct (tick_frame dt s) as (Hr & Hc & Hl & He).
  all: destruct (He Hro) as [Hev _]; rewrite Hst in Hev.
  all: unfold staleness_decay in Hev.
  all: destruct (Rgeb (sum_abs (e_v s)) 0.0001) eqn:Hge.
  - apply Rgeb_true in Hge. simpl in Hsum. lra.
  - exists 1%nat. split; [lia|]. cbn [repeat]. rewrite resume_cons.
    cbn [resume foldl handle]. rewrite Hev. apply all_zero_map.
  - destruct (IH (handle s (EvStep dt))) as (k & Hk & Hzero).
    + cbn [handle]. by rewrite Hr.
    + cbn [handle]. unfold stale in *. by rewrite Hc, Hl.
    + cbn [handle]. rewrite Hev, sum_abs_vscale, Rabs_pos_eq by lra.
      simpl in Hsum. lra.
    + exists (S k). split; [lia|]. cbn [repeat]. by rewrite resume_cons.
  - exists 1%nat. split; [lia|]. cbn [repeat]. rewrite resume_cons.
    cbn [resume foldl handle]. rewrite Hev. apply all_zero_map.
Qed.

(** X16.  A stale cartesian target dies out: when no new command arrives,
    finitely many ticks bring the target to exactly zero. *)
Theorem stale_cartesian_target_dies_out `{K : Kinematics} (dt : R)
    (s : ROSRobot) :
  readonly s = false ->
  stale (clock s) s = true ->
  exists k : nat,
    Forall (fun v => v = 0) (e_v (resume (repeat (EvStep dt) k) s)).
Proof.
  intros Hro Hst.
  pose proof (sum_abs_nonneg (e_v s)) as Hnn.
  destruct (pow_lt_1_zero 0.9) with (y := 0.0001 / (sum_abs (e_v s) + 1))
    as [N HN].
  - rewrite Rabs_pos_eq; lra.
  - apply Rdiv_lt_0_compat; lra.
  - specialize (HN N (Nat.le_refl N)).
    rewrite Rabs_pos_eq in HN by (apply pow_le; lra).
    destruct (stale_ticks_die_out dt N s Hro Hst) as (k & _ & Hzero);
      [|by exists k].
    apply (Rmult_lt_compat_r (sum_abs (e_v s) + 1)) in HN; [|lra].
    unfold Rdiv in HN. rewrite Rmult_assoc, Rinv_l, Rmult_1_r in HN by lra.
    assert (0 <= 0.9 ^ N) by (apply pow_le; lra). nra.
Qed.

Lemma stale_cartesian_target_dies_out_witness :
  readonly stale_cartesian_robot = false
  /\ stale (clock stale_cartesian_robot) stale_cartesian_robot = true
  /\ exists k : nat,
       Forall (fun v => v = 0)
         (e_v (@resume toy_arm (repeat (EvStep 0.01) k) stale_cartesian_robot)).
Proof.
  assert (H : stale (clock stale_cartesian_robot) stale_cartesian_robot = true).
  { apply Rgtb_true. simpl. lra. }
  split; [reflexivity|]. split; [exact H|].
  exact (@stale_cartesian_target_dies_out toy_arm 0.01 stale_cartesian_robot
           eq_refl H).
Defined.

(** ** The effort guard and the published state *)

(** X17.  [get_state] never fills the wrench, so after a tick the effort
    guard cannot trip while its thresholds are non-negative: only the
    duration guard can contribute to the result. *)
Theorem effort_guard_silent_after_tick `{K : Kinematics} (dt : R)
    (s s' : ROSRobot) (g : Guards) (start_time : R) :
  readonly s = false ->
  step dt s = Ret s' ->
  Forall (fun t => 0 <= t) (wrench_list (effort g)) ->
  test_guards g start_time s'
  = if (Z.land (enabled g) (GUARD_DURATION g) =? GUARD_DURATION g)%Z
       && Rgtb (clock s' - start_time) (duration g)
    then GUARD_DURATION g else 0%Z.
Proof.
  intros Hro Hrun Hthr.
  destruct (tick_frame dt s) as (_ & _ & _ & He). rewrite Hrun in He.
  cbn [after] in He. destruct (He Hro) as [_ Hstate].
  rewrite test_guards_flags, Hstate.
  assert (existsb (fun '(a, t) => Rgtb a t)
            (zip (map Rabs (wrench_list (ee_wrench (get_state s))))
                 (wrench_list (effort g))) = false) as ->.
  { apply not_true_is_false. intros Hex.
    apply existsb_abs_gt in Hex as (i & a & t & Ha & Ht & Hgt).
    assert (a = 0) as ->.
    { change (wrench_list (ee_wrench (get_state s))) with (repeat 0 6) in Ha.
      apply list_elem_of_lookup_2, list_elem_of_In, repeat_spec in Ha. done. }
    rewrite Forall_lookup in Hthr. specialize (Hthr _ _ Ht).
    rewrite Rabs_R0 in Hgt. lra. }
  rewrite andb_false_r. by rewrite Z.lor_0_r.
Qed.

Lemma effort_guard_silent_after_tick_witness :
  exists s' : ROSRobot,
    @step toy_arm 0.01 idle_robot = Ret s'
    /\ Forall (fun t => 0 <= t) (wrench_list (effort both_guards))
    /\ test_guards both_guards 0 s'
       = if (Z.land (enabled both_guards) (GUARD_DURATION both_guards)
             =? GUARD_DURATION both_guards)%Z
            && Rgtb (clock s' - 0) (duration both_guards)
         then GUARD_DURATION both_guards else 0%Z.
Proof.
  destruct idle_robot_quiet as [He Hj].
  destruct (@tick_without_targets toy_arm 0.01 idle_robot eq_refl He Hj)
    as (s' & Hrun & _).
  assert (Hthr : Forall (fun t => 0 <= t) (wrench_list (effort both_guards))).
  { repeat (constructor; [simpl; lra|]). constructor. }
  exists s'. split; [exact Hrun|]. split; [exact Hthr|].
  exact (@effort_guard_silent_after_tick toy_arm 0.01 idle_robot s'
           both_guards 0 eq_refl Hrun Hthr).
Defined.

(** ** [_state_cb]: the joint order *)

Lemma py_index_found (name : string) (l : list string) :
  name ∈ l -> exists i : nat, py_index name l = Some i /\ l !! i = Some name.
Proof.
  induction l as [|y l IH]; intros Hin; [by apply elem_of_nil in Hin|].
  simpl. case_bool_decide as Hy.
  - subst y. by exists 0%nat.
  - apply elem_of_cons in Hin as [-> | Hin]; [done|].
    destruct (IH Hin) as (i & -> & Hi). by exists (S i).
Qed.

Lemma py_index_missing (name : string) (l : list string) :
  name ∉ l -> py_index name l = None.
Proof.
  induction l as [|y l IH]; intros Hnot; [done|].
  apply not_elem_of_cons in Hnot as [Hne Hnot]. simpl.
  rewrite bool_decide_eq_false_2 by done. by rewrite IH.
Qed.

Lemma set_joint_indexes_twice (a b : list nat) (s : ROSRobot) :
  set_joint_indexes b (set_joint_indexes a s) = set_joint_indexes b s.
Proof. apply ROSRobot_eq; reflexivity. Qed.

Lemma find_indexes_found (names msg_names : list string) (s : ROSRobot) :
  Forall (fun name => name ∈ msg_names) names ->
  exists idx : list nat,
    find_indexes names msg_names s
    = Ret (set_joint_indexes (joint_indexes s ++ idx) s)
    /\ Forall2 (fun name i => msg_names !! i = Some name) names idx.
Proof.
  intros Hall. revert s. induction Hall as [|name names Hin _ IH]; intros s.
  - exists []. split; [|constructor]. simpl. f_equal.
    rewrite app_nil_r. apply ROSRobot_eq; reflexivity.
  - destruct (py_index_found _ _ Hin) as (i & Hi & Hlook).
    destruct (IH (set_joint_indexes (joint_indexes s ++ [i]) s))
      as (idx & Hrun & Hidx).
    exists (i :: idx). split; [|by constructor].
    simpl. rewrite Hi, Hrun. attrs.
    by rewrite set_joint_indexes_twice, <- app_assoc.
Qed.

(** X18.  The first joint state message fixes the joint order: each robot
    joint is looked up by name in the message, and [q] holds the message's
    positions in the robot's joint order, whatever order the message uses. *)
Theorem state_cb_orders_by_joint_name (msg : JointState) (s : ROSRobot) :
  joint_indexes s = [] ->
  Forall (fun name => name ∈ js_name msg) (joint_names s) ->
  length (js_position msg) = n s ->
  exists idx : list nat,
    _state_cb msg s
    = Ret (set_joint_states (Some msg)
             (set_q (NdArray (np_index (js_position msg) idx))
                (set_joint_indexes idx s)))
    /\ Forall2 (fun name i => js_name msg !! i = Some name) (joint_names s) idx.
Proof.
  intros Hempty Hall Hlen.
  destruct (find_indexes_found _ _ s Hall) as (idx & Hrun & Hidx).
  exists idx. split; [|exact Hidx].
  unfold _state_cb. rewrite bool_decide_eq_true_2 by done.
  rewrite Hrun, Hempty. cbn [app mbind run_bind]. attrs.
  by rewrite bool_decide_eq_true_2.
Qed.

Lemma state_cb_orders_by_joint_name_witness :
  exists s' : ROSRobot,
    _state_cb swapped_state two_joint_robot = Ret s'
    /\ q s' = NdArray [1; 2].
Proof.
  assert (Hall : Forall (fun name => name ∈ js_name swapped_state)
                   (joint_names two_joint_robot)).
  { repeat (constructor; [set_solver|]). constructor. }
  destruct (state_cb_orders_by_joint_name swapped_state two_joint_robot
              eq_refl Hall eq_refl) as (idx & Hrun & Hidx).
  eexists. split; [exact Hrun|]. attrs.
  apply Forall2_cons_inv_l in Hidx as (i & idx1 & Hi & Hidx & ->).
  apply Forall2_cons_inv_l in Hidx as (j & idx2 & Hj & Hidx & ->).
  apply Forall2_nil_inv_l in Hidx as ->.
  destruct i as [|[|i]]; [done | | done].
  destruct j as [|[|j]]; [ | done | done]. reflexivity.
Defined.

Lemma find_indexes_missing (pre post msg_names : list string) (bad : string)
    (s : ROSRobot) :
  Forall (fun name => name ∈ msg_names) pre ->
  bad ∉ msg_names ->
  exists idx : list nat,
    find_indexes (pre ++ bad :: post) msg_names s
    = Raise ValueError (set_joint_indexes (joint_indexes s ++ idx) s)
    /\ length idx = length pre.
Proof.
  intros Hall Hbad. revert s. induction Hall as [|name pre Hin _ IH]; intros s.
  - exists []. split; [|done]. simpl. rewrite (py_index_missing _ _ Hbad).
    f_equal. rewrite app_nil_r. apply ROSRobot_eq; reflexivity.
  - destruct (py_index_found _ _ Hin) as (i & Hi & Hlook).
    destruct (IH (set_joint_indexes (joint_indexes s ++ [i]) s))
      as (idx & Hrun & Hlen).
    exists (i :: idx). split; [|by simpl; rewrite Hlen].
    simpl. rewrite Hi, Hrun. attrs.
    by rewrite set_joint_indexes_twice, <- app_assoc.
Qed.

(** X19.  When the first message lacks a joint, the callback raises
    [ValueError] and leaves [q] alone, but keeps the indexes it had resolved
    before the missing name; if there are any, every later message is read
    through that short list without the names being looked up again. *)
Theorem state_cb_missing_joint_sticks (msg : JointState) (s : ROSRobot)
    (pre post : list string) (bad : string) :
  joint_indexes s = [] ->
  joint_names s = pre ++ bad :: post ->
  Forall (fun name => name ∈ js_name msg) pre ->
  bad ∉ js_name msg ->
  exists idx : list nat,
    _state_cb msg s = Raise ValueError (set_joint_indexes idx s)
    /\ length idx = length pre
    /\ (pre <> [] ->
        forall msg2 : JointState,
          _state_cb msg2 (set_joint_indexes idx s)
          = Ret (set_joint_states (Some msg2)
                   (set_q (if bool_decide (length (js_position msg2) = n s)
                           then NdArray (np_index (js_position msg2) idx)
                           else PyList (repeat 0 (n s)))
                      (set_joint_indexes idx s)))).
Proof.
  intros Hempty Hnames Hall Hbad.
  destruct (find_indexes_missing pre post _ bad s Hall Hbad)
    as (idx & Hrun & Hlen).
  rewrite Hempty in Hrun. cbn [app] in Hrun.
  exists idx. split; [|split; [exact Hlen|]].
  - unfold _state_cb. rewrite bool_decide_eq_true_2 by done.
    by rewrite Hnames, Hrun.
  - intros Hpre msg2. unfold _state_cb. attrs.
    rewrite bool_decide_eq_false_2; [done|].
    intros ->. destruct pre; [done | discriminate].
Qed.

Lemma state_cb_missing_joint_sticks_witness :
  exists idx : list nat,
    _state_cb partial_state two_joint_robot
    = Raise ValueError (set_joint_indexes idx two_joint_robot)
    /\ length idx = 1%nat.
Proof.
  assert (Hall : Forall (fun name => name ∈ js_name partial_state)
                   ["shoulder"%string]).
  { repeat (constructor; [set_solver|]). constructor. }
  assert (Hbad : "elbow"%string ∉ js_name partial_state).
  { intros [H | H]%elem_of_cons; [discriminate | by apply elem_of_nil in H]. }
  destruct (state_cb_missing_joint_sticks partial_state two_joint_robot
              ["shoulder"%string] [] "elbow" eq_refl eq_refl Hall Hbad)
    as (idx & Hrun & Hlen & _).
  exists idx. split; [exact Hrun | exact Hlen].
Defined.

(** ** Guarded velocity: how it ends, and the flag it leaves *)

(** X20.  A guarded velocity request that returns has ended for one of two
    reasons: the preemption flag is up, or [test_guards], evaluated on the
    state the request leaves, reports a tripped guard. *)
Theorem guarded_velocity_ends `{K : Kinematics} (ws : list (list Event))
    (msg : GuardedVelocityGoal) (s s' : ROSRobot) :
  guarded_velocity_cb ws msg s = Ret s' ->
  preempted s' = true
  \/ test_guards (gv_guards msg)
       (clock (if moving s then preempt s else s)) s' <> 0%Z.
Proof.
  intros Hrun.
  destruct (guarded_velocity_result _ _ _ _ Hrun) as (trig & s1 & Hloop & ->).
  apply guarded_loop_exit in Hloop as [[Hp _] | (_ & -> & Hne)].
  - by left.
  - right. exact Hne.
Qed.

(** X21.  The request never lowers the preemption flag.  Entered on an
    idle robot with the flag up, as a stop request that found nothing to
    stop leaves it, it stores no twist, reports at once and leaves the flag
    up, so that the guarded velocity request after it does the same. *)
Theorem guarded_velocity_keeps_flag `{K : Kinematics}
    (ws ws2 : list (list Event)) (msg msg2 : GuardedVelocityGoal)
    (s : ROSRobot) :
  moving s = false ->
  preempted s = true ->
  let reported :=
    send (set_succeeded velocity_server (GuardedVelocityResult true)) in
  guarded_velocity_cb ws msg s = Ret (reported s)
  /\ preempted (reported s) = true
  /\ guarded_velocity_cb ws2 msg2 (reported s) = Ret (reported (reported s)).
Proof.
  intros Hmv Hp reported.
  assert (Hone : forall ws0 msg0 s0,
            moving s0 = false -> preempted s0 = true ->
            guarded_velocity_cb ws0 msg0 s0 = Ret (reported s0)).
  { intros ws0 msg0 s0 Hmv0 Hp0. unfold guarded_velocity_cb, with_lock.
    cbv zeta. rewrite Hmv0. cbv iota. rewrite Hmv0.
    by destruct ws0; cbn [guarded_loop]; rewrite Hp0. }
  split; [by apply Hone|]. split; [subst reported; by attrs|].
  apply Hone; subst reported; by attrs.
Qed.

Lemma guarded_velocity_keeps_flag_witness :
  moving stopped_robot = false
  /\ preempted stopped_robot = true
  /\ @guarded_velocity_cb toy_arm [[EvClock 1]] unguarded_goal stopped_robot
     = Ret (send (set_succeeded velocity_server (GuardedVelocityResult true))
              stopped_robot).
Proof.
  split; [reflexivity|]. split; [reflexivity|].
  exact (proj1 (@guarded_velocity_keeps_flag toy_arm [[EvClock 1]] []
                  unguarded_goal unguarded_goal stopped_robot
                  eq_refl eq_refl)).
Defined.

Lemma guarded_velocity_ends_witness :
  @guarded_velocity_cb toy_arm [[EvClock 1]] unguarded_goal stopped_robot
  = Ret (send (set_succeeded velocity_server (GuardedVelocityResult true))
           stopped_robot)
  /\ (preempted (send (set_succeeded velocity_server
                         (GuardedVelocityResult true)) stopped_robot) = true
      \/ test_guards (gv_guards unguarded_goal)
           (clock (if moving stopped_robot then preempt stopped_robot
                   else stopped_robot))
           (send (set_succeeded velocity_server (GuardedVelocityResult true))
              stopped_robot) <> 0%Z).
Proof.
  assert (Hrun : @guarded_velocity_cb toy_arm [[EvClock 1]] unguarded_goal
                   stopped_robot
                 = Ret (send (set_succeeded velocity_server
                                (GuardedVelocityResult true)) stopped_robot))
    by reflexivity.
  split; [exact Hrun|].
  exact (@guarded_velocity_ends toy_arm _ _ _ _ Hrun).
Defined.

(** ** Trajectory requests that end where they start *)

(** A run that finds one of its exits at entry issues no command. *)
Lemma traj_move_exits_at_entry `{K : Kinematics} (traj : matrix)
    (max_speed : R) (ws : list (list Event)) (s : ROSRobot) :
  frequency s <> 0 ->
  traj_exit (qfunc1 traj) (total_time (qfunc1 traj) (as_list (q s)))
    (1 / frequency s) 0 s ->
  traj_move traj max_speed ws s
  = Ret (negb (preempted s),
         set_preempted false
           (set_moving false
              (set_j_v (PyList (repeat 0 (n s))) (set_moving true s)))).
Proof.
  intros Hf Hexit. unfold traj_move. cbv zeta. attrs.
  rewrite bool_decide_eq_false_2 by done.
  by rewrite traj_loop_exit_now.
Qed.

(** X22.  A stop request received while idle is remembered: the next move to
    a named pose, even to a known one, issues no command and is aborted; it
    clears the flag, so the request after it runs. *)
Theorem named_pose_after_idle_stop_aborts `{K : Kinematics}
    (ws : list (list Event)) (goal : MoveToNamedPoseGoal) (s : ROSRobot) :
  preempted s = true ->
  moving s = false ->
  is_Some (named_poses s !! goal_pose_name goal) ->
  frequency s <> 0 ->
  named_pose_cb ws goal s
  = Ret (send (set_aborted named_pose_server (MoveToNamedPoseResult false) "")
           (set_preempted false
              (set_moving false
                 (set_j_v (PyList (repeat 0 (n s))) (set_moving true s))))).
Proof.
  intros Hp Hmv [pose Hin] Hf. unfold named_pose_cb, with_lock. cbv zeta.
  rewrite Hmv. cbv iota. rewrite Hmv.
  rewrite bool_decide_eq_true_2 by eauto. cbn [negb].
  rewrite Hin.
  rewrite traj_move_exits_at_entry; [|done|by right; right].
  rewrite Hp. reflexivity.
Qed.

Lemma named_pose_after_idle_stop_aborts_witness :
  is_Some (named_poses stopped_robot !! goal_pose_name go_home)
  /\ frequency stopped_robot <> 0
  /\ @named_pose_cb toy_arm [] go_home stopped_robot
     = Ret (send (set_aborted named_pose_server
                    (MoveToNamedPoseResult false) "")
              (set_preempted false
                 (set_moving false
                    (set_j_v (PyList (repeat 0 (n stopped_robot)))
                       (set_moving true stopped_robot))))).
Proof.
  assert (H1 : is_Some (named_poses stopped_robot !! goal_pose_name go_home)).
  { exists zeros6. apply lookup_insert_eq. }
  assert (H2 : frequency stopped_robot <> 0) by (simpl; lra).
  split; [exact H1|]. split; [exact H2|].
  exact (@named_pose_after_idle_stop_aborts toy_arm [] go_home stopped_robot
           eq_refl eq_refl H1 H2).
Defined.

(** X23.  A joint pose request for a configuration the arm is already
    within tolerance of returns at once without a command, and its success
    is handed to the named-pose action server, not to the joint-pose
    server. *)
Theorem joint_pose_at_goal_reports_on_named_server `{K : Kinematics}
    (ws : list (list Event)) (goal : MoveToJointPoseGoal) (s : ROSRobot) :
  preempted s = false ->
  moving s = false ->
  frequency s <> 0 ->
  close_to_goal
    (qfunc1 (jtraj (as_list (q s)) (jp_joints goal) (frequency s))) s = true ->
  joint_pose_cb ws goal s
  = Ret (send (set_succeeded named_pose_server (MoveToJointPoseResult true))
           (set_preempted false
              (set_moving false
                 (set_j_v (PyList (repeat 0 (n s))) (set_moving true s))))).
Proof.
  intros Hp Hmv Hf Hclose. unfold joint_pose_cb, with_lock. cbv zeta.
  rewrite Hmv. cbv iota. rewrite Hmv.
  rewrite traj_move_exits_at_entry; [|done|by left].
  rewrite Hp. reflexivity.
Qed.

Lemma idle_robot_at_rest :
  close_to_goal
    (qfunc1 (@jtraj toy_arm (as_list (q idle_robot)) (jp_joints stay_put)
               (frequency idle_robot))) idle_robot = true.
Proof.
  change (qfunc1 _) with zeros6.
  unfold close_to_goal, vsub, zeros6.
  cbn [q idle_robot as_list zeros6 zip_with forallb].
  replace (0 - 0) with 0 by lra. rewrite Rabs_R0.
  assert (Rltb 0 0.02 = true) as -> by (apply Rltb_true; lra). done.
Qed.

Lemma joint_pose_at_goal_reports_on_named_server_witness :
  frequency idle_robot <> 0
  /\ close_to_goal
       (qfunc1 (@jtraj toy_arm (as_list (q idle_robot)) (jp_joints stay_put)
                  (frequency idle_robot))) idle_robot = true
  /\ @joint_pose_cb toy_arm [] stay_put idle_robot
     = Ret (send (set_succeeded named_pose_server (MoveToJointPoseResult true))
              (set_preempted false
                 (set_moving false
                    (set_j_v (PyList (repeat 0 (n idle_robot)))
                       (set_moving true idle_robot))))).
Proof.
  assert (H : frequency idle_robot <> 0) by (simpl; lra).
  split; [exact H|]. split; [exact idle_robot_at_rest|].
  exact (@joint_pose_at_goal_reports_on_named_server toy_arm [] stay_put
           idle_robot eq_refl eq_refl H idle_robot_at_rest).
Defined.

(** ** What a pose request leaves behind *)

Lemma traj_move_leaves_idle `{K : Kinematics} (traj : matrix) (max_speed : R)
    (ws : list (list Event)) (s : ROSRobot) (ok : bool) (s' : ROSRobot) :
  traj_move traj max_speed ws s = Ret (ok, s') ->
  moving s' = false /\ preempted s' = false.
Proof.
  unfold traj_move. cbv zeta.
  destruct (bool_decide _); [done|].
  destruct (traj_loop _ _ _ _ _ _ _ _ _) as [[t1 s1]|e s1|]; [|done..].
  cbn. intros [= _ <-]. by attrs.
Qed.

Lemma send_moving (m : Sent) (s : ROSRobot) : moving (send m s) = moving s.
Proof. by attrs. Qed.

Lemma send_preempted (m : Sent) (s : ROSRobot) :
  preempted (send m s) = preempted s.
Proof. by attrs. Qed.

Lemma idle_robot_stays_put :
  @joint_pose_cb toy_arm [] stay_put idle_robot
  = Ret (send (set_succeeded named_pose_server (MoveToJointPoseResult true))
           (set_preempted false
              (set_moving false
                 (set_j_v (PyList (repeat 0 (n idle_robot)))
                    (set_moving true idle_robot))))).
Proof.
  unfold joint_pose_cb, with_lock. cbv zeta.
  change (moving idle_robot) with false. cbv iota.
  rewrite traj_move_exits_at_entry;
    [reflexivity | simpl; lra | left; exact idle_robot_at_rest].
Qed.

(** X24.  Whenever a named-pose or joint-pose request returns, with success
    or not and whatever the other threads did meanwhile, the robot is marked
    idle and the preemption flag is down; a cartesian velocity command that
    follows therefore stops nothing and is taken as it is. *)
Theorem pose_request_leaves_idle `{K : Kinematics} (ws : list (list Event))
    (goal : MoveToNamedPoseGoal) (jgoal : MoveToJointPoseGoal)
    (msg : TwistStamped) (s s' : ROSRobot) :
  named_pose_cb ws goal s = Ret s' \/ joint_pose_cb ws jgoal s = Ret s' ->
  moving s' = false
  /\ preempted s' = false
  /\ velocity_cb msg s' = vel_move msg s'.
Proof.
  intros Hrun.
  assert (H : moving s' = false /\ preempted s' = false).
  { destruct Hrun as [Hrun | Hrun].
    - unfold named_pose_cb, with_lock in Hrun. cbv zeta in Hrun.
      destruct (moving (if moving s then preempt s else s)) in Hrun; [done|].
      destruct (named_poses _ !! _) as [pose|] in Hrun; [|done].
      destruct (traj_move _ _ _ _) as [[ok s1]|e s1|] eqn:E in Hrun; [|done..].
      apply traj_move_leaves_idle in E as [Hm Hp].
      cbn in Hrun. destruct ok; injection Hrun as <-;
        by rewrite send_moving, send_preempted.
    - unfold joint_pose_cb, with_lock in Hrun. cbv zeta in Hrun.
      destruct (moving (if moving s then preempt s else s)) in Hrun; [done|].
      destruct (traj_move _ _ _ _) as [[ok s1]|e s1|] eqn:E in Hrun; [|done..].
      apply traj_move_leaves_idle in E as [Hm Hp].
      cbn in Hrun. destruct ok; injection Hrun as <-;
        by rewrite send_moving, send_preempted. }
  destruct H as [Hm Hp]. split; [exact Hm|]. split; [exact Hp|].
  unfold velocity_cb. cbv zeta. by rewrite Hm.
Qed.

Lemma pose_request_leaves_idle_witness :
  exists s' : ROSRobot,
    @joint_pose_cb toy_arm [] stay_put idle_robot = Ret s'
    /\ moving s' = false
    /\ preempted s' = false
    /\ @velocity_cb toy_arm push_x s' = @vel_move toy_arm push_x s'.
Proof.
  eexists. split; [exact idle_robot_stays_put|].
  exact (@pose_request_leaves_idle toy_arm [] go_home stay_put push_x
           idle_robot _ (or_intror idle_robot_stays_put)).
Defined.

(** ** The shape of one trajectory step *)

Lemma jerk_profile_square (u : R) :
  30 * u ^ 2 - 60 * u ^ 3 + 30 * u ^ 4 = 30 * (u * (1 - u)) ^ 2.
Proof. ring. Qed.

(** X25.  The minimum-jerk velocity of a step never points away from the
    goal: at a nonnegative control frequency and a positive step count each
    component has the sign of the remaining joint error (or is zero), also
    past the last step of the profile; at the last step it is zero. *)
Theorem jerk_velocity_direction (freq : R) (time_freq time : Z)
    (end_point q : list R) :
  0 <= freq -> (0 < time_freq)%Z ->
  Forall2 (fun v d => 0 <= v * d)
    (jerk_velocity freq time_freq time end_point q) (vsub end_point q)
  /\ (time = time_freq ->
      Forall (fun v => v = 0) (jerk_velocity freq time_freq time end_point q)).
Proof.
  intros Hf Htf. unfold jerk_velocity, vscale, kP. cbv zeta.
  assert (Hpos : 0 < IZR time_freq) by (by apply IZR_lt).
  set (u := IZR time / IZR time_freq).
  rewrite jerk_profile_square.
  assert (Hk : 0 <= freq * (1 / IZR time_freq)).
  { apply Rmult_le_pos; [done|]. apply Rlt_le, Rdiv_lt_0_compat; lra. }
  set (k := freq * (1 / IZR time_freq)) in *.
  assert (Hp : 0 <= 30 * (u * (1 - u)) ^ 2).
  { apply Rmult_le_pos; [lra|]. apply pow2_ge_0. }
  split.
  - set (p := 30 * (u * (1 - u)) ^ 2) in *. clearbody p k.
    induction (vsub end_point q) as [|d l IH]; cbn [map]; constructor; [|done].
    replace (k * d * p * 1500 * d) with (1500 * (k * p) * (d * d)) by ring.
    apply Rmult_le_pos; [|nra].
    apply Rmult_le_pos; [lra|]. by apply Rmult_le_pos.
  - intros ->. assert (Hu : u = 1) by (subst u; field; lra).
    rewrite Hu. replace (30 * (1 * (1 - 1)) ^ 2) with 0 by ring.
    induction (vsub end_point q) as [|d l IH]; cbn [map]; constructor; [|done].
    ring.
Qed.

Lemma jerk_velocity_direction_witness :
  Forall (fun v => v = 0) (jerk_velocity 500 20000 20000 [1] [0]).
Proof.
  assert (H1 : 0 <= 500) by lra.
  exact (proj2 (jerk_velocity_direction 500 20000 20000 [1] [0] H1 eq_refl)
           eq_refl).
Defined.

(** ** What the speed cap leaves of the linear speed *)

Lemma dot_vscale (c : R) (row v : list R) :
  dot row (vscale c v) = dot row v * c.
Proof.
  unfold dot, vscale. revert v.
  induction row as [|a row IH]; intros [|b v]; cbn [map zip_with foldr];
    try lra.
  rewrite IH. lra.
Qed.

Lemma matvec_vscale (c : R) (M : matrix) (v : list R) :
  matvec M (vscale c v) = vscale c (matvec M v).
Proof.
  unfold matvec. induction M as [|row M IH]; [done|].
  cbn [map vscale]. rewrite dot_vscale. f_equal. exact IH.
Qed.

Lemma take_vscale (k : nat) (c : R) (v : list R) :
  take k (vscale c v) = vscale c (take k v).
Proof.
  unfold vscale. revert v.
  induction k as [|k IH]; intros [|x v]; cbn [take map]; [done..|].
  by rewrite IH.
Qed.

Lemma norm_take_le (k : nat) (v : list R) : norm (take k v) <= norm v.
Proof.
  unfold norm. apply sqrt_le_1_alt.
  rewrite <- (take_drop k v) at 2. rewrite sum_squares_app.
  pose proof (sum_squares_nonneg (drop k v)). lra.
Qed.

(** X26.  When the cap applies, the joint target a step stores still moves
    the end-effector at the cap or faster: its linear speed is the cap times
    [norm twist / linear_speed], which is at least the cap and equals it only
    as far as the six-component norm equals the linear one. *)
Theorem capped_step_linear_speed `{K : Kinematics} (end_point : list R)
    (delta : R) (time_freq : Z) (max_speed t : R) (time : Z) (s : ROSRobot) :
  norm (take 3 (profile_twist end_point time_freq time s)) > max_speed ->
  0 <= max_speed ->
  let s' := snd (traj_body end_point delta time_freq max_speed t time s) in
  norm (take 3 (commanded_twist s'))
  = max_speed * (norm (profile_twist end_point time_freq time s)
                 / norm (take 3 (profile_twist end_point time_freq time s)))
  /\ max_speed <= norm (take 3 (commanded_twist s')).
Proof.
  intros Hgt Hms s'.
  set (tw := profile_twist end_point time_freq time s) in *.
  assert (E : norm (take 3 (commanded_twist s'))
              = max_speed * (norm tw / norm (take 3 tw))).
  { subst s'. unfold commanded_twist, traj_body. cbv zeta.
    cbn [snd as_list]. attrs. cbn [as_list].
    rewrite matvec_vscale. fold (profile_twist end_point time_freq time s).
    fold tw. rewrite take_vscale, norm_vscale.
    rewrite Rabs_pos_eq by apply time_scaling_nonneg.
    rewrite time_scaling_capped by done.
    rewrite capped_factor_product by done.
    field. lra. }
  split; [exact E|]. rewrite E.
  pose proof (norm_take_le 3 tw) as Hle.
  assert (HL : 0 < norm (take 3 tw)) by lra.
  assert (H1 : 1 <= norm tw / norm (take 3 tw)).
  { apply (Rmult_le_reg_r (norm (take 3 tw))); [done|].
    replace (norm tw / norm (take 3 tw) * norm (take 3 tw)) with (norm tw)
      by (field; lra).
    lra. }
  nra.
Qed.

Lemma screw_step_profile :
  @profile_twist screw_axis [1] 20000 10000 one_joint_robot
  = [3375 / 16; 0; 0; 1125 / 4; 0; 0].
Proof.
  unfold profile_twist.
  change (frequency one_joint_robot) with 500.
  change (as_list (q one_joint_robot)) with [0].
  by rewrite screw_step_velocity, screw_step_twist.
Qed.

Lemma capped_step_linear_speed_witness :
  norm (take 3 (@profile_twist screw_axis [1] 20000 10000 one_joint_robot))
    > 0.2
  /\ 0.2 <= norm (take 3 (@commanded_twist screw_axis
                    (snd (@traj_body screw_axis [1] (1 / 500) 20000 0.2 0
                            10000 one_joint_robot)))).
Proof.
  assert (Hgt : norm (take 3 (@profile_twist screw_axis [1] 20000 10000
                                one_joint_robot)) > 0.2).
  { rewrite screw_step_profile, screw_step_linear_speed. lra. }
  assert (Hms : 0 <= 0.2) by lra.
  split; [exact Hgt|].
  exact (proj2 (@capped_step_linear_speed screw_axis [1] (1 / 500) 20000 0.2
                  0 10000 one_joint_robot Hgt Hms)).
Defined.
